(** * Aurora / polars-mas: a shallow embedding of the column resolver,
    the PheWAS frame helpers and the per-group Firth regression wrapper

  Sources embedded here:
  - [src/polars_mas/__init__.py]   : [_match_columns_to_indices],
    [_load_input_header], [_validate_args], [setup_logger]
  - [src/polars_mas/model_funcs.py]: [polars_firth_regression]
  - [src/aurora/polars_aurora.py]  : [PhewasFrame.handle_sex_specific_codes],
    [PhewasFrame.handle_missing], [PhewasFrame.filter_by_count]

  Python values are modelled functionally: a call that may raise returns
  a [result], whose left summand carries the exception. *)

From Stdlib Require Import ZArith Lia Bool Ascii String.
From Stdlib Require Import Decimal DecimalPos DecimalZ DecimalString.
From stdpp Require Import base option list strings sorting gmap fin_maps.

Local Open Scope string_scope.
Local Open Scope Z_scope.

(** ** Python basics: exceptions, strings, integers, lists

  A string stands for a Python [str] whose characters are code points
  below 256. *)

Module Py.

(** The exception classes that the embedded code can meet. *)
Inductive exc_class :=
| ValueError
| TypeError
| IndexError
| ColumnNotFoundError
| DuplicateError
| OtherException.

(** An exception instance; [exc_msg] is what [str(e)] returns. *)
Record exception := Raise { exc_cls : exc_class; exc_msg : string }.

Definition result (A : Type) : Type := exception + A.

Definition ret {A} (a : A) : result A := inr a.
Definition raise {A} (c : exc_class) (m : string) : result A := inl (Raise c m).

Definition bind {A B} (m : result A) (k : A → result B) : result B :=
  match m with
  | inl e => inl e
  | inr a => k a
  end.

(** [str(n)] for an integer. *)
Definition str_int (z : Z) : string := NilZero.string_of_int (Z.to_int z).

(** [c in s] for a one-character needle. *)
Fixpoint contains (c : ascii) (s : string) : bool :=
  match s with
  | EmptyString => false
  | String d r => if Ascii.eqb d c then true else contains c r
  end.

(** [s.split(sep)] for a one-character separator: never returns the
    empty list, and keeps empty pieces. *)
Fixpoint split (sep : ascii) (s : string) : list string :=
  match s with
  | EmptyString => [EmptyString]
  | String c r =>
      if Ascii.eqb c sep then EmptyString :: split sep r
      else match split sep r with
           | [] => [String c EmptyString]
           | h :: t => String c h :: t
           end
  end.

Definition is_digit (c : ascii) : bool :=
  let n := nat_of_ascii c in (48 <=? n)%nat && (n <=? 57)%nat.

Definition digit_val (c : ascii) : Z := Z.of_nat (nat_of_ascii c) - 48.

(** Every character is one of the decimal digits 0..9, the only decimal
    characters below 256. *)
Fixpoint all_digits (s : string) : bool :=
  match s with
  | EmptyString => true
  | String c r => is_digit c && all_digits r
  end.

(** The characters below 256 that [str.isnumeric] accepts: the decimal
    digits, the superscripts two, three and one, and the fractions one
    quarter, one half and three quarters. *)
Definition is_numeric_char (c : ascii) : bool :=
  is_digit c
  || existsb (Nat.eqb (nat_of_ascii c)) [178; 179; 185; 188; 189; 190]%nat.

Fixpoint all_numeric (s : string) : bool :=
  match s with
  | EmptyString => true
  | String c r => is_numeric_char c && all_numeric r
  end.

(** [s.isnumeric()]: a non-empty run of numeric characters. *)
Definition isnumeric (s : string) : bool :=
  match s with
  | EmptyString => false
  | String _ _ => all_numeric s
  end.

(** The white space of [str.strip()] below 256: TAB..CR, FS..US, the
    blank, NEL and the no-break space. *)
Definition is_space (c : ascii) : bool :=
  let n := nat_of_ascii c in
  ((9 <=? n)%nat && (n <=? 13)%nat) || ((28 <=? n)%nat && (n <=? 32)%nat)
  || (n =? 133)%nat || (n =? 160)%nat.

(** The white space that [int()] skips around a literal: TAB..CR and the
    blank, and NEL and the no-break space, which the conversion turns
    into blanks first. FS..US are not skipped. *)
Definition is_int_space (c : ascii) : bool :=
  let n := nat_of_ascii c in
  ((9 <=? n)%nat && (n <=? 13)%nat) || (n =? 32)%nat
  || (n =? 133)%nat || (n =? 160)%nat.

(** Removal of the leading and of the trailing characters that [sp]
    accepts. *)
Fixpoint lstrip_chars (sp : ascii → bool) (s : string) : string :=
  match s with
  | EmptyString => EmptyString
  | String c r => if sp c then lstrip_chars sp r else s
  end.

Fixpoint rstrip_chars (sp : ascii → bool) (s : string) : string :=
  match s with
  | EmptyString => EmptyString
  | String c r =>
      match rstrip_chars sp r with
      | EmptyString => if sp c then EmptyString else String c EmptyString
      | String _ _ as r' => String c r'
      end
  end.

(** [s.lstrip()], [s.rstrip()] and [s.strip()] *)
Definition lstrip (s : string) : string := lstrip_chars is_space s.
Definition rstrip (s : string) : string := rstrip_chars is_space s.
Definition strip (s : string) : string := rstrip (lstrip s).

(** Digits of an [int()] literal; a single underscore may sit between
    two digits. [us] records that the previous character was one. *)
Fixpoint int_digits (acc : Z) (us : bool) (s : string) : option Z :=
  match s with
  | EmptyString => if us then None else Some acc
  | String c r =>
      if is_digit c then int_digits (10 * acc + digit_val c) false r
      else if Ascii.eqb c "_" then
             if us then None else int_digits acc true r
           else None
  end.

Definition int_unsigned (s : string) : option Z :=
  match s with
  | EmptyString => None
  | String c _ => if is_digit c then int_digits 0 false s else None
  end.

Definition int_literal (s : string) : option Z :=
  match rstrip_chars is_int_space (lstrip_chars is_int_space s) with
  | String "+" r => int_unsigned r
  | String "-" r => Z.opp <$> int_unsigned r
  | t => int_unsigned t
  end.

(** [int(s)]: base-10 literal or [ValueError]. *)
Definition int (s : string) : result Z :=
  match int_literal s with
  | Some z => ret z
  | None =>
      raise ValueError ("invalid literal for int() with base 10: '" ++ s ++ "'")
  end.

(** Big-endian value of a decimal numeral. *)
Fixpoint uval (acc : Z) (d : Decimal.uint) : Z :=
  match d with
  | Decimal.Nil => acc
  | Decimal.D0 d => uval (10 * acc) d
  | Decimal.D1 d => uval (10 * acc + 1) d
  | Decimal.D2 d => uval (10 * acc + 2) d
  | Decimal.D3 d => uval (10 * acc + 3) d
  | Decimal.D4 d => uval (10 * acc + 4) d
  | Decimal.D5 d => uval (10 * acc + 5) d
  | Decimal.D6 d => uval (10 * acc + 6) d
  | Decimal.D7 d => uval (10 * acc + 7) d
  | Decimal.D8 d => uval (10 * acc + 8) d
  | Decimal.D9 d => uval (10 * acc + 9) d
  end.

(** [len(l)] *)
Definition len {A} (l : list A) : Z := Z.of_nat (length l).

(** [l[i]] with Python's negative indices and [IndexError]. *)
Definition getitem {A} (l : list A) (i : Z) : result A :=
  let j := if i <? 0 then i + len l else i in
  if j <? 0 then raise IndexError "list index out of range"
  else match l !! Z.to_nat j with
       | Some x => ret x
       | None => raise IndexError "list index out of range"
       end.

Definition slice_bound (n i : Z) : Z :=
  if i <? 0 then Z.max 0 (i + n) else Z.min i n.

(** [l[lo:hi]] *)
Definition slice {A} (l : list A) (lo hi : Z) : list A :=
  let a := slice_bound (len l) lo in
  let b := slice_bound (len l) hi in
  take (Z.to_nat (b - a)) (drop (Z.to_nat a) l).

(** [l[lo:]] *)
Definition slice_from {A} (l : list A) (lo : Z) : list A :=
  drop (Z.to_nat (slice_bound (len l) lo)) l.

End Py.

Declare Scope py_scope.
Delimit Scope py_scope with py.
Notation "'let*' x ':=' m 'in' k" := (Py.bind m (fun x => k))
(at level 10, x name, m at level 100, k at level 200) : py_scope.
Local Open Scope py_scope.

(** ** [polars_mas/__init__.py]: the index-expression resolver *)

Module PolarsMas.
Import Py.

(** The part of [_match_columns_to_indices] that runs when [indices]
    holds no comma: a plain index, or a range. *)
Definition match_single (indices : string) (col_names : list string)
  : result (list string) :=
  if isnumeric indices then
    let* index := int indices in
    if index >=? len col_names then
      raise ValueError
        ("Index " ++ str_int index ++ " out of range for "
           ++ str_int (len col_names) ++ " columns in input file.")
    else
      let* i := int indices in
      let* c := getitem col_names i in
      ret [c]
  else if contains "-" indices then
    match split "-" indices with
    | [start; end_] =>
        let* start_idx := int start in
        if start_idx >=? len col_names then
          raise ValueError
            ("Start index " ++ str_int start_idx
               ++ " out of range for input file column indices. "
               ++ str_int (len col_names) ++ " columns found.")
        else
          let* end_too_big :=
            (if negb (String.eqb end_ "")
             then let* e := int end_ in ret (e >=? len col_names)
             else ret false) in
          if end_too_big then
            raise ValueError
              ("End index " ++ end_ ++ " out of range for "
                 ++ str_int (len col_names)
                 ++ " columns. If you want to use all remaining columns, use "
                 ++ str_int start_idx ++ "-.")
          else if negb (String.eqb end_ "") then
            let* end_idx := int end_ in
            ret (slice col_names start_idx end_idx)
          else ret (slice_from col_names start_idx)
    | _ => raise ValueError "too many values to unpack (expected 2)"
    end
  else
    raise ValueError
      ("Invalid index format, must use '-' for a range: " ++ indices).

(** The loop over the comma-separated pieces: empty pieces are skipped,
    the first raising piece aborts. *)
Fixpoint extend_all (splits : list string) (col_names : list string)
  : result (list string) :=
  match splits with
  | [] => ret []
  | split :: rest =>
      if String.eqb "" split then extend_all rest col_names
      else
        let* cols := match_single split col_names in
        let* more := extend_all rest col_names in
        ret (cols ++ more)%list
  end.

(** [_match_columns_to_indices(indices, col_names)]. The pieces of
    [indices.split(",")] hold no comma, so the recursive calls of the
    source all land in [match_single]. *)
Definition _match_columns_to_indices (indices : string) (col_names : list string)
  : result (list string) :=
  if contains "," indices then extend_all (split "," indices) col_names
  else match_single indices col_names.

End PolarsMas.

(** ** The fragment of polars that the sources call *)

Module Polars.
Import Py.

(** A cell is an integer or null ([None]); a series is a column of cells
    of type [Int64]. Binary phenotypes are coded 0/1. *)
Abbreviation cell := (option Z).
Abbreviation series := (list cell).

(** 64-bit two's complement wrap-around, of [Int64] here and of numpy's
    [int64]. *)
Definition wrap64 (z : Z) : Z := (z + 2 ^ 63) mod 2 ^ 64 - 2 ^ 63.

(** A [DataFrame] or [LazyFrame]: named columns in schema order. [lazy]
    tells which of the two classes the object is; a lazy frame is
    evaluated on the spot here. *)
Record Frame := mkFrame { lazy : bool; columns : list (string * series) }.

(** [df.collect_schema().names()] *)
Definition names (df : Frame) : list string := (columns df).*1.

(** [df.height] *)
Definition height (df : Frame) : Z :=
  match columns df with
  | [] => 0
  | (_, s) :: _ => len s
  end.

(** [df.collect()] *)
Definition collect (df : Frame) : Frame := mkFrame false (columns df).

(** The schema invariant of a frame: distinct names, columns of one length. *)
Definition wf (df : Frame) : Prop :=
  NoDup (names df) ∧ Forall (λ c, len c.2 = height df) (columns df).

Fixpoint get_column (name : string) (cs : list (string * series)) : option series :=
  match cs with
  | [] => None
  | (n, s) :: rest => if String.eqb n name then Some s else get_column name rest
  end.

(** The column called [name], empty when there is none. *)
Definition column (df : Frame) (name : string) : series :=
  default [] (get_column name (columns df)).

(** The row view of a frame: row [i] lists the cells at position [i],
    each with the name of its column. *)
Abbreviation row := (list (string * cell)).

Fixpoint rows_of (cs : list (string * series)) (n : nat) : list row :=
  match cs with
  | [] => replicate n []
  | (name, s) :: rest => zip_with (λ c r, (name, c) :: r) s (rows_of rest n)
  end.

Definition rows (df : Frame) : list row :=
  rows_of (columns df) (Z.to_nat (height df)).

Fixpoint row_get (name : string) (r : row) : option cell :=
  match r with
  | [] => None
  | (n, c) :: rest => if String.eqb n name then Some c else row_get name rest
  end.

(** No cell of the row is null in the columns of [subset]. *)
Definition complete_on (subset : list string) (r : row) : bool :=
  forallb (λ p, match row_get p r with Some None => false | _ => true end) subset.

(** Column expressions: [pl.col(name)] (also a bare string given to
    [select]) and [pl.all().exclude(names)]. *)
Inductive expr :=
| Col (name : string)
| AllExclude (excluded : list string).

(** [pl.all().exclude] applied to an unpacked list of names. The method
    is declared with one required positional parameter, [columns],
    followed by a variadic [more_columns]; a call that unpacks to no
    argument at all is a [TypeError]. *)
Definition exclude_star (args : list string) : result expr :=
  match args with
  | [] =>
      raise TypeError
        "Expr.exclude() missing 1 required positional argument: 'columns'"
  | _ :: _ => ret (AllExclude args)
  end.

Definition expand (e : expr) (df : Frame) : result (list (string * series)) :=
  match e with
  | Col name =>
      match get_column name (columns df) with
      | Some s => ret [(name, s)]
      | None => raise ColumnNotFoundError name
      end
  | AllExclude excluded =>
      ret (filter (λ c, c.1 ∉ excluded) (columns df))
  end.

Fixpoint expand_all (es : list expr) (df : Frame) : result (list (string * series)) :=
  match es with
  | [] => ret []
  | e :: rest =>
      let* cs := expand e df in
      let* more := expand_all rest df in
      ret (cs ++ more)%list
  end.

(** [df.select] applied to a list of expressions. *)
Definition select (es : list expr) (df : Frame) : result Frame :=
  let* cs := expand_all es df in
  if decide (NoDup cs.*1) then ret (mkFrame (lazy df) cs)
  else raise DuplicateError "the name is duplicate"%string.

(** [is_not_null] on one cell. *)
Definition is_not_null (c : cell) : bool :=
  match c with Some _ => true | None => false end.

(** Row [i] is kept by [drop_nulls] when no listed column is null there. *)
Fixpoint keep_mask (subset : list series) (n : nat) : list bool :=
  match subset with
  | [] => replicate n true
  | s :: rest => zip_with andb (is_not_null <$> s) (keep_mask rest n)
  end.

Fixpoint filter_mask {A} (mask : list bool) (l : list A) : list A :=
  match mask, l with
  | b :: m, x :: r => if b then x :: filter_mask m r else filter_mask m r
  | _, _ => []
  end.

(** [df.drop_nulls(subset=names)] *)
Definition drop_nulls (subset : list string) (df : Frame) : result Frame :=
  let* sub := expand_all (Col <$> subset) df in
  let mask := keep_mask sub.*2 (Z.to_nat (height df)) in
  ret (mkFrame (lazy df) (prod_map id (filter_mask mask) <$> columns df)).

(** Sum and count of the non-null cells of a column, as [df.sum()] and
    [df.count()] compute them per column: the sum of an [Int64] column
    is an [Int64] again, and wraps around. *)
Definition col_sum (s : series) : Z :=
  foldr (λ c acc, wrap64 (default 0 c + acc)) 0 s.
Definition col_count (s : series) : Z := len (filter (λ c, is_not_null c = true) s).

(** [df.sum()] and [df.count()]: one row holding each column's aggregate. *)
Definition sum (df : Frame) : Frame :=
  mkFrame (lazy df) (prod_map id (λ s, [Some (col_sum s)]) <$> columns df).
Definition count (df : Frame) : Frame :=
  mkFrame (lazy df) (prod_map id (λ s, [Some (col_count s)]) <$> columns df).

(** [df.transpose()]: row [i] becomes the column [column_i]; a frame
    without columns has no row and gives a frame without columns. *)
Definition transpose (df : Frame) : Frame :=
  mkFrame (lazy df)
    ((λ i, ("column_" ++ str_int (Z.of_nat i),
            (λ c, mjoin (c.2 !! i)) <$> columns df))
       <$> seq 0 (Z.to_nat (height df))).

Definition cell_sub (a b : cell) : cell :=
  match a, b with
  | Some x, Some y => Some (wrap64 (x - y))
  | _, _ => None
  end.

(** [a - b] on two frames of one shape, cell by cell, in [Int64]. *)
Definition sub (a b : Frame) : Frame :=
  mkFrame (lazy a)
    (zip_with (λ ca cb, (ca.1, zip_with cell_sub ca.2 cb.2)) (columns a) (columns b)).

(** A frame given as a column to the [pl.DataFrame] constructor stands
    for its only column, and one without columns for a column without
    cells. *)
Definition to_series (df : Frame) : result series :=
  match columns df with
  | [] => ret []
  | [(_, s)] => ret s
  | _ :: _ :: _ => raise OtherException "struct column"
  end.

(** Binding of keyword arguments: a keyword that is no parameter of the
    callee is a [TypeError]. *)
Definition bind_keywords (fname : string) (params kwargs : list string)
  : result unit :=
  match filter (λ k, k ∉ params) kwargs with
  | [] => ret ()
  | k :: _ =>
      raise TypeError
        (fname ++ "() got an unexpected keyword argument '" ++ k ++ "'")
  end.

(** The parameters of [DataFrame.fill_null] and [LazyFrame.fill_null]:
    [fill_null(value=None, strategy=None, limit=None, *, matches_supertype=True)]. *)
Definition fill_null_params : list string :=
  ["value"; "strategy"; "limit"; "matches_supertype"].

Fixpoint fill_forward (last : cell) (s : series) : series :=
  match s with
  | [] => []
  | Some v :: r => Some v :: fill_forward (Some v) r
  | None :: r => last :: fill_forward last r
  end.

Definition fill_backward (s : series) : series :=
  reverse (fill_forward None (reverse s)).

Definition non_null (s : series) : list Z := omap id s.

Definition fill_with (v : cell) (s : series) : series :=
  (λ c, match c with Some x => Some x | None => v end) <$> s.

Definition col_min (s : series) : cell :=
  match non_null s with [] => None | x :: r => Some (foldr Z.min x r) end.
Definition col_max (s : series) : cell :=
  match non_null s with [] => None | x :: r => Some (foldr Z.max x r) end.
(** The mean of an integer column is cast back to the column's type. *)
Definition col_mean (s : series) : cell :=
  match non_null s with
  | [] => None
  | x :: r => Some (Z.quot (foldr Z.add 0 (x :: r)) (len (x :: r)))
  end.

(** One column under a fill strategy; [None] for an unknown strategy. *)
Definition fill_series (strategy : string) (s : series) : option series :=
  if String.eqb strategy "forward" then Some (fill_forward None s)
  else if String.eqb strategy "backward" then Some (fill_backward s)
  else if String.eqb strategy "min" then Some (fill_with (col_min s) s)
  else if String.eqb strategy "max" then Some (fill_with (col_max s) s)
  else if String.eqb strategy "mean" then Some (fill_with (col_mean s) s)
  else if String.eqb strategy "zero" then Some (fill_with (Some 0) s)
  else if String.eqb strategy "one" then Some (fill_with (Some 1) s)
  else None.

(** [df.fill_null] called with keyword arguments only, of which
    [strategy] gives the fill: every column of the frame is filled. *)
Definition fill_null (kwargs : list string) (strategy : string) (df : Frame)
  : result Frame :=
  let* _ := bind_keywords "fill_null" fill_null_params kwargs in
  match mapM (λ c, pair c.1 <$> fill_series strategy c.2) (columns df) with
  | Some cs => ret (mkFrame (lazy df) cs)
  | None => raise ValueError ("strategy not supported: " ++ strategy)
  end.

End Polars.

(** ** [aurora/polars_aurora.py]: the [phewas] frame namespace *)

Module PolarsAurora.
Import Py Polars.

(** A function that prints: the lines written to standard output, and
    the outcome. *)
Definition printed (A : Type) : Type := list string * result A.

(** A row of the four-column frame [target_df] of [filter_by_count]. *)
Record target_row := mkTarget {
  phenotype : string;
  cases : cell;
  controls : cell;
  total : cell
}.

(** The [pl.DataFrame] constructor on the dictionary of [target_df]:
    the columns must agree in length. *)
Fixpoint target_frame (phenotypes : list string) (cs ks ts : series)
  : result (list target_row) :=
  match phenotypes, cs, ks, ts with
  | [], [], [], [] => ret []
  | p :: ps, c :: cs', k :: ks', t :: ts' =>
      let* rest := target_frame ps cs' ks' ts' in
      ret (mkTarget p c k t :: rest)
  | _, _, _, _ => raise OtherException "could not create a new DataFrame: height mismatch"
  end.

(** [pl.col(name) < n] and [pl.col(name) >= n] on a cell; a null
    compares to null, which a filter treats as false. *)
Definition cell_lt (c : cell) (n : Z) : bool :=
  match c with Some x => x <? n | None => false end.
Definition cell_ge (c : cell) (n : Z) : bool :=
  match c with Some x => x >=? n | None => false end.

Definition valid_strategies : list (option string) :=
  [None; Some "forward"; Some "backward"; Some "min"; Some "max";
   Some "mean"; Some "zero"; Some "one"].

Section Consts.
(** [aurora.consts], which the sources import, is not among them: the
    two code lists are parameters. *)
Variables male_specific_codes female_specific_codes : list string.

(** [PhewasFrame.handle_sex_specific_codes(self, drop=False)] *)
Definition handle_sex_specific_codes (df : Frame) (drop : bool) : result Frame :=
  let col_names := names df in
  let male_codes_in_df := filter (λ col, col ∈ male_specific_codes) col_names in
  let female_codes_in_df := filter (λ col, col ∈ female_specific_codes) col_names in
  if drop then
    let* e := exclude_star (male_codes_in_df ++ female_codes_in_df)%list in
    select [e] df
  else ret df.
End Consts.

(** [PhewasFrame.handle_missing(self, predictors, method=None)] *)
Definition handle_missing (df : Frame) (predictors : list string)
    (method : option string) : printed Frame :=
  if decide (method ∈ valid_strategies) then
    match method with
    | None =>
        match drop_nulls predictors df with
        | inl e => ([], inl e)
        | inr new_df =>
            if negb (lazy new_df) then
              if negb (height new_df =? height df) then
                (["Dropped " ++ str_int (height df - height new_df)
                    ++ " rows with missing values."], ret new_df)
              else ([], ret new_df)
            else
              let new_height := height (collect new_df) in
              let old_height := height (collect df) in
              if negb (new_height =? old_height) then
                (["Dropped " ++ str_int (old_height - new_height)
                    ++ " rows with missing values."], ret new_df)
              else ([], ret new_df)
        end
    | Some strategy =>
        ([], fill_null ["subset"; "strategy"] strategy df)
    end
  else
    ([], raise ValueError
           ("Unknown method '" ++ default "None" method
              ++ "'. Valid strategies are: [None, 'forward', 'backward', 'min', 'max', 'mean', 'zero', 'one']")).

(** The aggregates of [filter_by_count]: both branches of the
    [isinstance] test. *)
Definition counts_of (agg : Frame → Frame) (pheno_data : Frame) : Frame :=
  if lazy pheno_data then transpose (collect (agg pheno_data))
  else transpose (agg pheno_data).

(** [sorted(list(set(a).intersection(set(b))))] *)
Definition sorted_intersection (a b : list string) : list string :=
  merge_sort String.le (elements ((list_to_set a : gset string) ∩ list_to_set b)).

(** [PhewasFrame.filter_by_count(self, phenotypes, min_cases=20)] *)
Definition filter_by_count (df : Frame) (phenotypes : list string) (min_cases : Z)
  : printed Frame :=
  let before_print :=
    let* pheno_data := select (Col <$> phenotypes) df in
    let case_counts := counts_of sum pheno_data in
    let total_counts := counts_of count pheno_data in
    let control_counts := sub total_counts case_counts in
    let* cs := to_series case_counts in
    let* ks := to_series control_counts in
    let* ts := to_series total_counts in
    let* target_df := target_frame phenotypes cs ks ts in
    ret target_df in
  match before_print with
  | inl e => ([], inl e)
  | inr target_df =>
      let invalid_phenos :=
        filter (λ r, cell_lt (cases r) min_cases || cell_lt (controls r) min_cases = true)
          target_df in
      let out :=
        if len invalid_phenos >? 0 then
          [str_int (len invalid_phenos) ++ " phenotypes dropped due to having less than "
             ++ str_int min_cases ++ " cases/controls."]
        else [] in
      let valid_phenos :=
        filter (λ r, cell_ge (cases r) min_cases && cell_ge (controls r) min_cases = true)
          target_df in
      let valid_cols := sorted_intersection phenotypes (phenotype <$> valid_phenos) in
      (out, select (AllExclude phenotypes :: (Col <$> valid_cols)) df)
  end.

(** The two counts of one phenotype column and the test that
    [filter_by_count] applies to them. *)
Definition case_count (s : series) : Z := col_sum s.
Definition control_count (s : series) : Z := wrap64 (col_count s - col_sum s).
Definition enough (min_cases : Z) (s : series) : bool :=
  (case_count s >=? min_cases) && (control_count s >=? min_cases).

(** The frame [pheno_data], the rows of [target_df], the phenotypes that
    pass and fail the test, the line printed and the frame returned, as
    the properties below name them. *)
Definition pheno_frame (df : Frame) (phenotypes : list string) : Frame :=
  mkFrame (lazy df) ((λ p, (p, column df p)) <$> phenotypes).

Definition target_of (df : Frame) (p : string) : target_row :=
  mkTarget p (Some (case_count (column df p))) (Some (control_count (column df p)))
    (Some (col_count (column df p))).

Definition survivors (df : Frame) (phenotypes : list string) (min_cases : Z)
  : list string :=
  filter (λ p, enough min_cases (column df p) = true) phenotypes.

Definition excluded (df : Frame) (phenotypes : list string) (min_cases : Z)
  : list string :=
  filter (λ p, enough min_cases (column df p) = false) phenotypes.

Definition filtered_frame (df : Frame) (phenotypes : list string) (min_cases : Z)
  : Frame :=
  mkFrame (lazy df)
    (filter (λ c, c.1 ∉ phenotypes) (columns df)
       ++ ((λ p, (p, column df p))
             <$> merge_sort String.le (survivors df phenotypes min_cases)))%list.

Definition dropped_message (df : Frame) (phenotypes : list string) (min_cases : Z)
  : list string :=
  if len (excluded df phenotypes min_cases) >? 0 then
    [str_int (len (excluded df phenotypes min_cases))
       ++ " phenotypes dropped due to having less than "
       ++ str_int min_cases ++ " cases/controls."]
  else [].




End PolarsAurora.

(** ** [polars_mas/model_funcs.py]: one Firth regression per group *)

Module ModelFuncs.
Import Py Polars.

(** [loguru] levels used by the wrapper, and a function that logs. *)
Inductive level := WARNING | ERROR.
Definition logged (A : Type) : Type := list (level * string) * result A.

(** The rows of one (predictor, dependent) group as the struct column
    delivers them once unnested. [dependent_field] and [predictor_field]
    are the two columns of names, [None] when the struct has no such
    field; [fields] holds the other fields, which are numeric: the
    independents and the response are taken from them. *)
Record Struct := mkStruct {
  dependent_field : option (list (option string));
  predictor_field : option (list (option string));
  fields : Frame
}.

(** [regframe.select(name).unique().item()] on a column of names: the
    one value that the column holds, which may be null. [select] wants
    the column to exist and [item] a frame of shape (1, 1). *)
Definition unique_item (name : string) (field : option (list (option string)))
  : result (option string) :=
  match field with
  | None => raise ColumnNotFoundError name
  | Some col =>
      match remove_dups col with
      | [v] => ret v
      | vs =>
          raise ValueError
            ("can only call `.item()` if the dataframe is of shape (1, 1), or if explicit row/col values are provided; frame has shape ("
               ++ str_int (len vs) ++ ", 1)")
      end
  end.

(** [str(v)] inside an f-string, for a name or [None]. *)
Definition format_name (v : option string) : string := default "None" v.

(** [frame.to_numpy().ravel()] on a one-column selection: the cells in
    row order, a null becoming NaN ([None]). *)
Definition to_numpy_ravel (df : Frame) : list cell :=
  mjoin ((λ i, (λ c, mjoin (c.2 !! i)) <$> columns df) <$> seq 0 (Z.to_nat (height df))).

(** [y.sum()]: NaN as soon as one entry is. *)
Definition np_sum (y : list cell) : cell :=
  foldr (λ c acc, match c, acc with
                  | Some x, Some a => Some (wrap64 (x + a))
                  | _, _ => None
                  end) (Some 0) y.

(** [.astype(int)]: NaN is cast to the least [int64]. *)
Definition astype_int (c : cell) : Z :=
  match c with Some z => z | None => - 2 ^ 63 end.

Section Regression.
(** Python floats are kept abstract; [exp x] stands for [np.e ** x]. *)
Variable float : Type.
Variable exp : float → float.

(** The values stored in [output_struct]. *)
Inductive pyval :=
| PyNaN
| PyFloat (x : float)
| PyInt (z : Z)
| PyStr (s : string).

(** What the wrapper reads from a fitted [FirthLogisticRegression]:
    entry 0 of [pvals_], [coef_], [bse_] and the two ends of [ci_[0]]. *)
Record Fitted := mkFitted {
  pvals_0 : float;
  coef_0 : float;
  bse_0 : float;
  ci_0_0 : float;
  ci_0_1 : float
}.

(** [firthlogist] is an external solver: [fit X y] is the whole body of
    the [try] block, which either yields the fitted attributes or
    raises an [Exception]. *)
Variable fit : Frame → list cell → result Fitted.

(** [polars_mas.mas_frame], which registers
    [check_grouped_independents_for_constants], is not among the
    sources: the helper is a parameter. It yields the names of the
    independent columns that it keeps. *)
Variable check_grouped_independents_for_constants :
  Frame → list string → option string → result (list string).

(** [d.update(other)] *)
Definition update (d other : gmap string pyval) : gmap string pyval := other ∪ d.

Definition output_struct0 : gmap string pyval :=
  list_to_map
    [("pval", PyNaN); ("beta", PyNaN); ("se", PyNaN); ("OR", PyNaN);
     ("ci_low", PyNaN); ("ci_high", PyNaN); ("cases", PyNaN);
     ("controls", PyNaN); ("total_n", PyNaN); ("failed_reason", PyStr "nan")].

(** The statements of [polars_firth_regression] up to its first test
    (lines 38 to 44): the two names read from the group, the design
    matrix [X] with the constant columns removed, and [independents[0]].
    None of them is inside the [try] block. *)
Definition before_test (struct_col : Struct) (independents : list string)
  : result (option string * option string * Frame * string) :=
  let regframe := fields struct_col in
  let* dependent := unique_item "dependent" (dependent_field struct_col) in
  let* predictor := unique_item "predictor" (predictor_field struct_col) in
  let* X := select (Col <$> independents) regframe in
  let* non_consts :=
    check_grouped_independents_for_constants X independents dependent in
  let* X := select (Col <$> non_consts) X in
  let* first := getitem independents 0 in
  ret (dependent, predictor, X, first).

(** The design matrix and [independents[0]] alone. *)
Definition design_matrix (struct_col : Struct) (independents : list string)
  : result (Frame * string) :=
  let* before := before_test struct_col independents in
  ret (before.1.2, before.2).

(** [polars_firth_regression(struct_col, independents, dependent_values, min_cases)] *)
Definition polars_firth_regression (struct_col : Struct) (independents : list string)
    (dependent_values : string) (min_cases : Z) : logged (gmap string pyval) :=
  let output_struct := output_struct0 in
  let regframe := fields struct_col in
  match before_test struct_col independents with
  | inl e => ([], inl e)
  | inr (dependent, predictor, X, first) =>
      if decide (first ∉ names X) then
        ([(WARNING, "Predictor " ++ format_name predictor
                      ++ " was removed due to constant values. Skipping analysis.")],
         ret (update output_struct
                (list_to_map
                   [("failed_reason", PyStr "Predictor removed due to constant values")])))
      else
        match select [Col dependent_values] regframe with
        | inl e => ([], inl e)
        | inr yframe =>
            let y := to_numpy_ravel yframe in
            let cases := astype_int (np_sum y) in
            let total_counts := len y in
            let controls := wrap64 (total_counts - cases) in
            let output_struct :=
              update output_struct
                (list_to_map
                   [("cases", PyInt cases); ("controls", PyInt controls);
                    ("total_n", PyInt total_counts)]) in
            match fit X y with
            | inr fl =>
                ([], ret (update output_struct
                            (list_to_map
                               [("pval", PyFloat (pvals_0 fl));
                                ("beta", PyFloat (coef_0 fl));
                                ("se", PyFloat (bse_0 fl));
                                ("OR", PyFloat (exp (coef_0 fl)));
                                ("ci_low", PyFloat (ci_0_0 fl));
                                ("ci_high", PyFloat (ci_0_1 fl))])))
            | inl e =>
                ([(ERROR, "Error in Firth regression for " ++ format_name dependent
                            ++ ": " ++ exc_msg e)],
                 ret (update output_struct
                        (list_to_map [("failed_reason", PyStr (exc_msg e))])))
            end
        end
  end.

(** The counts that the wrapper recomputes from the response vector. *)
Definition group_cases (y : list cell) : Z := astype_int (np_sum y).
Definition group_total (y : list cell) : Z := len y.
Definition group_controls (y : list cell) : Z :=
  wrap64 (group_total y - group_cases y).

(** The keys of a result record. *)
Definition result_keys : list string :=
  ["pval"; "beta"; "se"; "OR"; "ci_low"; "ci_high"; "cases"; "controls";
   "total_n"; "failed_reason"].

End Regression.

Arguments PyNaN {float}.
Arguments PyInt {float} z.
Arguments PyStr {float} s.
Arguments PyFloat {float} x.

(** Modelled from the spec: [check_grouped_independents_for_constants] of
    [polars_mas.mas_frame] is missing; the spec has it re-check the
    group's independent columns for constants, so this instance keeps
    the listed columns that hold two distinct non-null values. *)
Definition is_constant (s : series) : bool :=
  match non_null s with
  | [] => true
  | x :: r => forallb (Z.eqb x) r
  end.

Definition keep_non_constants (X : Frame) (independents : list string)
    (dependent : option string) : result (list string) :=
  ret (filter (λ n, from_option (negb ∘ is_constant) false
                       (get_column n (columns X)) = true) independents).

End ModelFuncs.

(** ** [polars_mas/__init__.py]: header, argument validation, logger *)

Module Cli.
Import Py PolarsMas.

(** [s.startswith(prefix)] *)
Fixpoint startswith (s prefix : string) : bool :=
match prefix, s with
| EmptyString, _ => true
| String p ps, String c r => Ascii.eqb p c && startswith r ps
| String _ _, EmptyString => false
end.

(** The scan of [s.split(sep)] for a non-empty [sep]: [skip] counts the
    characters of a separator just matched that are still to be passed,
    [cur] is the piece being read. *)
Fixpoint split_go (sep : string) (skip : nat) (cur s : string) : list string :=
match s with
| EmptyString => [cur]
| String c r =>
    match skip with
    | S k => split_go sep k cur r
    | O =>
        if startswith s sep
        then cur :: split_go sep (String.length sep - 1) EmptyString r
        else split_go sep 0 (cur ++ String c EmptyString) r
    end
end.

(** [s.split(sep)]: the empty separator is refused. *)
Definition split_str (sep s : string) : result (list string) :=
if String.eqb sep "" then raise ValueError "empty separator"
else ret (split_go sep 0 "" s).

Definition newline : ascii := ascii_of_nat 10.
Definition carriage_return : ascii := ascii_of_nat 13.

(** [f.readline()] on a file opened in text mode, [content] being what
    is left to read: the text up to the first line ending, which is read
    as a newline, or the whole rest when there is none. *)
Fixpoint readline (content : string) : string :=
match content with
| EmptyString => EmptyString
| String c r =>
    if Ascii.eqb c newline || Ascii.eqb c carriage_return
    then String newline EmptyString
    else String c (readline r)
end.

(** [_load_input_header(input_file, separator)], on the content of the
    file. *)
Definition _load_input_header (content separator : string) : result (list string) :=
split_str separator (strip (readline content)).

(** [repr] of a string without quotes, backslashes or control
    characters, and of a list of such strings. *)
Definition repr_str (s : string) : string := "'" ++ s ++ "'".
Definition repr_list (l : list string) : string :=
"[" ++ String.concat ", " (repr_str <$> l) ++ "]".

(** The levels of [loguru]. *)
Inductive Level := TRACE | DEBUG | INFO | SUCCESS | WARNING | ERROR | CRITICAL.

Definition level_no (l : Level) : Z :=
match l with
| TRACE => 5
| DEBUG => 10
| INFO => 20
| SUCCESS => 25
| WARNING => 30
| ERROR => 40
| CRITICAL => 50
end.

Definition level_eqb (a b : Level) : bool := level_no a =? level_no b.

(** What [_validate_args] raises: [FileNotFoundError], or one of the
    exceptions of [Py]. *)
Inductive fatal :=
| FileNotFoundError (msg : string)
| Invalid (e : exception).

(** A function that logs and may raise: the records logged, in order,
    and the outcome. *)
Definition cmd (A : Type) : Type := list (Level * string) * (fatal + A).

Definition cret {A} (a : A) : cmd A := ([], inr a).
Definition cfail {A} (e : fatal) : cmd A := ([], inl e).
Definition clog (l : Level) (msg : string) : cmd unit := ([(l, msg)], inr ()).
Definition clift {A} (r : result A) : cmd A :=
match r with
| inl e => cfail (Invalid e)
| inr a => cret a
end.
Definition cbind {A B} (m : cmd A) (k : A → cmd B) : cmd B :=
match m with
| (l, inl e) => (l, inl e)
| (l, inr a) => let '(l', r) := k a in ((l ++ l')%list, r)
end.

(** The attributes of [args] that [_validate_args] reads or writes.
    [input] and [output_parent] are the paths [args.input] and
    [args.output.parent] as text. *)
Record Namespace := mkNamespace {
  input : string;
  output_parent : string;
  separator : string;
  predictors : list string;
  dependents : option (list string);
  dependents_indices : option string;
  covariates : option (list string);
  covariates_indicies : option string;
  categorical_covariates : option (list string);
  polars_threads : Z;
  threads : Z
}.

(** What the function asks of the machine: whether the two paths exist,
    the content of the input file, which is taken to be readable text,
    and [os.cpu_count()], which is taken to be known. *)
Record Host := mkHost {
  input_exists : bool;
  output_parent_exists : bool;
  input_content : string;
  cpu_count : Z
}.

(** The first element of [l] that is not in [cols]: where a loop
    [for x in l: if x not in cols: raise ...] stops. *)
Definition first_missing (l cols : list string) : option string :=
head (filter (λ x, x ∉ cols) l).

(** Truth of a list or string option: [None] and the empty value are false. *)
Definition truthy_list (o : option (list string)) : option (list string) :=
match o with
| Some (x :: l) => Some (x :: l)
| _ => None
end.
Definition truthy_str (o : option string) : option string :=
match o with
| Some (String c r) => Some (String c r)
| _ => None
end.

(** The block "Check dependents": the names when given, else the index
    expression resolved against the header. *)
Definition check_dependents (args : Namespace) (file_col_names : list string)
  : cmd (list string) :=
match truthy_list (dependents args) with
| Some deps =>
    match first_missing deps file_col_names with
    | Some dep =>
        cfail (Invalid (Raise ValueError
                 ("Dependent column '" ++ dep ++ "' not found in input file.")))
    | None => cret deps
    end
| None =>
    match truthy_str (dependents_indices args) with
    | Some indices => clift (_match_columns_to_indices indices file_col_names)
    | None => cfail (Invalid (Raise ValueError "No dependent variables specified."))
    end
end.

(** The block "Check covariates". *)
Definition check_covariates (args : Namespace) (file_col_names : list string)
  : cmd (list string) :=
match truthy_list (covariates args) with
| Some covs =>
    match first_missing covs file_col_names with
    | Some cov =>
        cfail (Invalid (Raise ValueError
                 ("Covariate column '" ++ cov ++ "' not found in input file.")))
    | None => cret covs
    end
| None =>
    match truthy_str (covariates_indicies args) with
    | Some indices => clift (_match_columns_to_indices indices file_col_names)
    | None => cret []
    end
end.

(** The block "Check categorical covariates", [covs] being
    [args.covariates] as the block before left it. *)
Definition check_categorical (args : Namespace) (covs : list string)
  : cmd (list string) :=
match truthy_list (categorical_covariates args), covs with
| Some _, [] =>
    cfail (Invalid (Raise ValueError
             "Categorical covariates specified without specifying covariates"))
| Some cats, _ :: _ =>
    match first_missing cats covs with
    | Some cov =>
        cfail (Invalid (Raise ValueError
                 ("Categorical covariate column '" ++ cov
                    ++ "' not found in given covariates: " ++ repr_list covs ++ ".")))
    | None => cret cats
    end
| None, _ => cret []
end.

(** The two thread checks: the values of [polars_threads] and [threads]
    they leave. *)
Definition check_threads (host : Host) (args : Namespace) : cmd (Z * Z) :=
let cpu := cpu_count host in
cbind
  (if polars_threads args >? cpu then
     cbind (clog WARNING
              ("Number of Polars threads (" ++ str_int (polars_threads args)
                 ++ ") exceeds number of available CPUs (" ++ str_int cpu
                 ++ "). Setting Polars threads to " ++ str_int cpu ++ "."))
       (λ _, cret cpu)
   else cret (polars_threads args))
  (λ pt,
     if threads args >=? pt then
       cbind (clog WARNING
                ("Number of computation threads (" ++ str_int (threads args)
                   ++ ") exceeds number of Polars threads (" ++ str_int pt
                   ++ "). Setting threads to " ++ str_int pt ++ "."))
         (λ _, cret (pt, pt))
     else cret (pt, threads args)).

(** [_validate_args(args)]: the namespace as the function leaves it. *)
Definition _validate_args (host : Host) (args : Namespace) : cmd Namespace :=
if negb (input_exists host) then
  cfail (FileNotFoundError ("File not found: " ++ input args))
else if negb (output_parent_exists host) then
  cfail (FileNotFoundError ("Output directory not found: " ++ output_parent args))
else
  cbind (clift (_load_input_header (input_content host) (separator args)))
    (λ file_col_names,
  cbind (clog INFO (str_int (len file_col_names) ++ " columns found in input file."))
    (λ _,
  if existsb (λ predictor, bool_decide (predictor ∉ file_col_names)) (predictors args)
  then
    cfail (Invalid (Raise ValueError
             ("Predictor column '" ++ repr_list (predictors args)
                ++ "' not found in input columns.")))
  else
  cbind (check_dependents args file_col_names) (λ deps,
  cbind (check_covariates args file_col_names) (λ covs,
  cbind (check_categorical args covs) (λ cats,
  cbind (check_threads host args) (λ '(pt, th),
  cret (mkNamespace (input args) (output_parent args) (separator args)
          (predictors args) (Some deps) (dependents_indices args)
          (Some covs) (covariates_indicies args) (Some cats) pt th))))))).

(** A sink added to the logger: where it writes, its least level, and
    its filter on the level of a record. *)
Inductive Target := LogFile (path : string) | Stdout | Stderr.

Record Sink := mkSink {
  target : Target;
  sink_level : Level;
  sink_filter : Level → bool
}.

(** A path as [pathlib] splits it: the directory, the stem of the last
    component, and its suffix. *)
Record Path := mkPath { directory : string; stem : string; suffix : string }.

Definition with_suffix (p : Path) (suffix : string) : Path :=
mkPath (directory p) (stem p) suffix.

Definition path_str (p : Path) : string :=
directory p ++ "/" ++ stem p ++ suffix p.

(** [setup_logger(output, verbose)]: the sinks of the logger afterwards,
    [logger.remove()] having cleared it first. Both console sinks are
    given [stdout_level]; [stderr_level] is assigned in one branch and
    read in none. *)
Definition setup_logger (output : Path) (verbose : bool) : list Sink :=
let log_file_path := with_suffix output ".log" in
let file_sink := mkSink (LogFile (path_str log_file_path)) INFO (λ _, true) in
let stdout_level :=
  if verbose then DEBUG
  else (let stdout_level := INFO in let stdout_level := ERROR in stdout_level) in
let stdout_sink :=
  mkSink Stdout stdout_level
    (λ name, negb (existsb (level_eqb name) [WARNING; ERROR])) in
let stderr_sink :=
  mkSink Stderr stdout_level
    (λ name, negb (existsb (level_eqb name) [DEBUG; INFO; SUCCESS])) in
[file_sink; stdout_sink; stderr_sink].

(** A record at level [l] is written by a sink when the level reaches
    the sink's and the filter accepts it. *)
Definition writes (s : Sink) (l : Level) : bool :=
(level_no (sink_level s) <=? level_no l) && sink_filter s l.

(** The targets that a record at level [l] reaches. *)
Definition reached (sinks : list Sink) (l : Level) : list Target :=
target <$> filter (λ s, writes s l = true) sinks.

End Cli.

(** ** Concrete inputs *)

Module Examples.
Import Py Polars PolarsAurora ModelFuncs.

Definition header : list string := ["id"; "age"; "sex"; "p1"; "p2"].

(** Two predictors with one null each, and a phenotype with a null. *)
Definition df_missing : Frame :=
  mkFrame false
    [("age", [Some 30; None; Some 52; Some 63]);
     ("bmi", [Some 22; Some 25; None; Some 27]);
     ("d1", [None; Some 1; Some 0; Some 1])].

(** A covariate and three phenotypes: [pb] and [pa] have two cases and
    two controls, [pc] has one case. *)
Definition df_pheno : Frame :=
  mkFrame false
    [("age", [Some 30; Some 41; Some 52; Some 63]);
     ("pb", [Some 1; Some 1; Some 0; Some 0]);
     ("pa", [Some 1; Some 0; Some 1; Some 0]);
     ("pc", [Some 1; Some 0; Some 0; Some 0])].


(** A frame holding phenotypes only, none of which passes. *)
Definition df_only_pheno : Frame :=
  mkFrame false [("pc", [Some 1; Some 0; Some 0; Some 0])].

Definition male_codes : list string := ["185"; "187"].
Definition female_codes : list string := ["174"; "182"].

(** A frame without any sex-specific phenotype. *)
Definition df_no_sex_codes : Frame :=
  mkFrame false [("age", [Some 30; Some 41]); ("250", [Some 1; Some 0])].

(** A group whose predictor [x] is constant. *)
Definition group_constant : Struct :=
  mkStruct (Some (replicate 4 (Some "d1"))) (Some (replicate 4 (Some "x")))
    (mkFrame false
       [("x", [Some 1; Some 1; Some 1; Some 1]);
        ("age", [Some 30; Some 41; Some 52; Some 63]);
        ("y", [Some 1; Some 0; Some 1; Some 0])]).

(** A group with one case and three controls. *)
Definition group_rare : Struct :=
  mkStruct (Some (replicate 4 (Some "d2"))) (Some (replicate 4 (Some "x")))
    (mkFrame false
       [("x", [Some 0; Some 1; Some 2; Some 3]);
        ("age", [Some 30; Some 41; Some 52; Some 63]);
        ("y", [Some 1; Some 0; Some 0; Some 0])]).

(** Rows of two dependents in one struct. *)
Definition group_mixed : Struct :=
  mkStruct (Some [Some "d1"; Some "d1"; Some "d2"; Some "d2"])
    (Some (replicate 4 (Some "x")))
    (mkFrame false
       [("x", [Some 0; Some 1; Some 2; Some 3]);
        ("age", [Some 30; Some 41; Some 52; Some 63]);
        ("y", [Some 1; Some 0; Some 0; Some 0])]).

(** Stand-ins for the solver, with integers in the place of floats: one
    that returns, one that raises. *)
Definition fit_returns (X : Frame) (y : list cell) : result (Fitted Z) :=
  ret (mkFitted Z 5 2 1 0 4).
Definition fit_raises (X : Frame) (y : list cell) : result (Fitted Z) :=
  raise OtherException "Singular matrix".
Definition exp_stand_in (x : Z) : Z := 3 ^ x.

(** The wrapper on the two groups, with [min_cases] at 20. *)
Definition run_constant : logged (gmap string (pyval Z)) :=
  polars_firth_regression Z exp_stand_in fit_returns keep_non_constants
    group_constant ["x"; "age"] "y" 20.

Definition run_rare (fit : Frame → list cell → result (Fitted Z))
  : logged (gmap string (pyval Z)) :=
  polars_firth_regression Z exp_stand_in fit keep_non_constants
    group_rare ["x"; "age"] "y" 20.

(** The design matrix and the response frame of [group_rare]. *)
Definition X_rare : Frame :=
  mkFrame false
    [("x", [Some 0; Some 1; Some 2; Some 3]);
     ("age", [Some 30; Some 41; Some 52; Some 63])].
Definition y_rare : Frame := mkFrame false [("y", [Some 1; Some 0; Some 0; Some 0])].

End Examples.

(** ** Concrete inputs, continued *)

Module MoreExamples.
Import Py Polars PolarsAurora ModelFuncs Cli Examples.

(** An input file of two lines, on a machine with eight CPUs. *)
Definition host_ok : Host :=
mkHost true true ("id,age,sex,p1,p2" ++ String newline "1,30,0,1,0") 8.

(** A machine on which the input file is missing. *)
Definition host_no_input : Host := mkHost false true "" 8.

(** Dependents by index, covariates by name, more threads than CPUs. *)
Definition args_ok : Namespace :=
mkNamespace "in.csv" "out" "," ["age"] None (Some "3-") (Some ["sex"]) None
  (Some ["sex"]) 16 12.

(** A predictor that the header does not have. *)
Definition args_bad_predictor : Namespace :=
mkNamespace "in.csv" "out" "," ["bmi"] None (Some "3-") None None None 4 1.

(** A frame with one male-specific phenotype. *)
Definition df_sex : Frame :=
mkFrame false
  [("age", [Some 30; Some 41]); ("185", [Some 1; Some 0]); ("250", [Some 1; Some 0])].

Definition df_sex_dropped : Frame :=
mkFrame false [("age", [Some 30; Some 41]); ("250", [Some 1; Some 0])].

(** [df_missing] without the rows that have a null in [age] or [bmi]. *)
Definition df_missing_dropped : Frame :=
mkFrame false
  [("age", [Some 30; Some 63]); ("bmi", [Some 22; Some 27]); ("d1", [None; Some 1])].

(** [df_pheno] filtered with [min_cases] 2 and 1. *)
Definition df_pheno_2 : Frame :=
mkFrame false
  [("age", [Some 30; Some 41; Some 52; Some 63]);
   ("pa", [Some 1; Some 0; Some 1; Some 0]);
   ("pb", [Some 1; Some 1; Some 0; Some 0])].

Definition df_pheno_1 : Frame :=
mkFrame false
  [("age", [Some 30; Some 41; Some 52; Some 63]);
   ("pa", [Some 1; Some 0; Some 1; Some 0]);
   ("pb", [Some 1; Some 1; Some 0; Some 0]);
   ("pc", [Some 1; Some 0; Some 0; Some 0])].

End MoreExamples.

(** * Properties *)

Import Py Polars.

(** ** Python strings and integers *)

Section PyFacts.

Lemma digit_numeric c : is_digit c = true → is_numeric_char c = true.
Proof. intros H. unfold is_numeric_char. by rewrite H. Qed.

Lemma numeric_not_int_space c : is_numeric_char c = true → is_int_space c = false.
Proof. destruct c as [[] [] [] [] [] [] [] []]; done. Qed.

Lemma numeric_not_sign c :
  is_numeric_char c = true → Ascii.eqb c "+" = false ∧ Ascii.eqb c "-" = false.
Proof. destruct c as [[] [] [] [] [] [] [] []]; done. Qed.

Lemma digit_not_char c (d : ascii) :
  is_digit d = false → is_digit c = true → Ascii.eqb c d = false.
Proof.
  intros Hd Hc. destruct (Ascii.eqb_spec c d) as [->|]; congruence.
Qed.

Lemma all_digits_contains d s :
  is_digit d = false → all_digits s = true → contains d s = false.
Proof.
  intros Hd. induction s as [|c r IH]; simpl; [done|].
  intros [Hc Hr]%andb_true_iff. rewrite (digit_not_char c d) by done. auto.
Qed.

Lemma all_digits_numeric s : all_digits s = true → all_numeric s = true.
Proof.
  induction s as [|c r IH]; simpl; [done|].
  intros [Hc Hr]%andb_true_iff. by rewrite digit_numeric, IH.
Qed.

Lemma isnumeric_all_numeric s : isnumeric s = true → all_numeric s = true.
Proof. by destruct s. Qed.

Lemma all_numeric_lstrip s :
  all_numeric s = true → lstrip_chars is_int_space s = s.
Proof.
  destruct s as [|c r]; simpl; [done|].
  intros [Hc _]%andb_true_iff. by rewrite numeric_not_int_space.
Qed.

Lemma all_numeric_rstrip s :
  all_numeric s = true → rstrip_chars is_int_space s = s.
Proof.
  induction s as [|c r IH]; simpl; [done|].
  intros [Hc Hr]%andb_true_iff. rewrite (IH Hr).
  destruct r; [by rewrite numeric_not_int_space|done].
Qed.

(** A numeric string has no white space and no sign for [int()] to
    take off. *)
Lemma isnumeric_int_literal s :
  isnumeric s = true → int_literal s = int_unsigned s.
Proof.
  intros H%isnumeric_all_numeric. unfold int_literal.
  rewrite all_numeric_lstrip, all_numeric_rstrip by done.
  destruct s as [|c r]; [done|]. simpl in H.
  apply andb_true_iff in H as [[Hp Hm]%numeric_not_sign _].
  apply Ascii.eqb_neq in Hp, Hm.
  destruct c as [[] [] [] [] [] [] [] []]; try done.
Qed.

Lemma int_digits_lower s acc us z :
  0 ≤ acc → int_digits acc us s = Some z → 0 ≤ z.
Proof.
  revert acc us. induction s as [|c r IH]; simpl; intros acc us Hacc.
  - destruct us; [done|]. by intros [= <-].
  - destruct (is_digit c) eqn:Hc.
    + apply IH. unfold digit_val. unfold is_digit in Hc.
      apply andb_true_iff in Hc as [Hc _]. apply Nat.leb_le in Hc. lia.
    + destruct (Ascii.eqb c "_"); [|done]. destruct us; [done|]. by apply IH.
Qed.

(** What [int] reads from a numeric string is a natural number. *)
Lemma isnumeric_int_nonneg s z : isnumeric s = true → int s = ret z → 0 ≤ z.
Proof.
  intros H. unfold int. rewrite isnumeric_int_literal by done.
  destruct (int_unsigned s) as [z'|] eqn:Hu; [|done]. intros [= <-].
  unfold int_unsigned in Hu. destruct s as [|c r]; [done|].
  destruct (is_digit c); [|done]. by eapply int_digits_lower.
Qed.

(** [int] raises nothing but [ValueError]. *)
Lemma int_value_error s e : int s = inl e → exc_cls e = ValueError.
Proof. unfold int. destruct (int_literal s); [done|]. by intros [= <-]. Qed.

Lemma all_digits_int_digits s acc :
  0 ≤ acc → all_digits s = true → ∃ z, acc ≤ z ∧ int_digits acc false s = Some z.
Proof.
  revert acc. induction s as [|c r IH]; simpl; intros acc Hacc.
  - intros _. exists acc. split; [lia|done].
  - intros [Hc Hr]%andb_true_iff. rewrite Hc.
    assert (0 ≤ digit_val c) as Hd.
    { unfold digit_val. unfold is_digit in Hc.
      apply andb_true_iff in Hc as [Hc _]. apply Nat.leb_le in Hc. lia. }
    destruct (IH (10 * acc + digit_val c)) as (z & Hz & ->); [lia|done|].
    exists z. split; [lia|done].
Qed.

Lemma int_digits_step c r acc :
  is_digit c = true →
  int_digits acc false (String c r) = int_digits (10 * acc + digit_val c) false r.
Proof. intros H. simpl. by rewrite H. Qed.

Ltac eval_digit :=
  match goal with
  | |- context [digit_val ?c] =>
      let v := eval vm_compute in (digit_val c) in change (digit_val c) with v
  end.

Lemma int_digits_string_of_uint d acc :
  int_digits acc false (NilEmpty.string_of_uint d) = Some (uval acc d).
Proof.
  revert acc. induction d; intros acc; [done|..];
    simpl NilEmpty.string_of_uint; rewrite int_digits_step by done;
    rewrite IHd; simpl uval; eval_digit; do 2 f_equal; lia.
Qed.

Lemma all_digits_string_of_uint d :
  all_digits (NilEmpty.string_of_uint d) = true.
Proof. induction d; simpl; done. Qed.

Lemma uval_of_lu d acc :
  uval acc d
  = acc * 10 ^ Z.of_N (DecimalPos.Unsigned.usize d)
    + Z.of_N (DecimalPos.Unsigned.of_lu (Decimal.rev d)).
Proof.
  revert acc. induction d; intros acc; simpl uval;
    [simpl; lia|..];
    rewrite IHd; unfold Decimal.rev; simpl Decimal.revapp;
    rewrite (DecimalPos.Unsigned.of_lu_revapp d (_ Decimal.Nil));
    simpl DecimalPos.Unsigned.usize; simpl DecimalPos.Unsigned.of_lu;
    rewrite N2Z.inj_succ, Z.pow_succ_r by lia;
    rewrite N2Z.inj_add, N2Z.inj_mul, N2Z.inj_pow;
    unfold Decimal.rev; simpl Z.of_N; lia.
Qed.

Lemma uval_of_uint d : uval 0 d = Z.of_uint d.
Proof.
  rewrite uval_of_lu. unfold Z.of_uint.
  rewrite DecimalPos.Unsigned.of_uint_alt. lia.
Qed.

(** The decimal rendering of a natural number. *)
Lemma str_int_uint z :
  0 ≤ z → ∃ d, str_int z = NilEmpty.string_of_uint d ∧ d ≠ Decimal.Nil ∧ Z.of_uint d = z.
Proof.
  intros Hz. unfold str_int. pose proof (DecimalZ.of_to z) as Hof.
  destruct z as [|p|p]; [| |lia].
  - exists (Decimal.D0 Decimal.Nil). done.
  - simpl in *. exists (Pos.to_uint p). split_and!; [|apply DecimalPos.Unsigned.to_uint_nonnil|done].
    unfold NilZero.string_of_uint.
    pose proof (DecimalPos.Unsigned.to_uint_nonnil p).
    by destruct (Pos.to_uint p).
Qed.

Lemma all_digits_str_int z : 0 ≤ z → all_digits (str_int z) = true.
Proof.
  intros (d & -> & _ & _)%str_int_uint. apply all_digits_string_of_uint.
Qed.

Lemma str_int_first_digit z :
  0 ≤ z → ∃ c r, str_int z = String c r ∧ is_digit c = true.
Proof.
  intros Hz. pose proof (all_digits_str_int z Hz) as Hall.
  destruct (str_int_uint z Hz) as (d & Hd & Hne & _). rewrite Hd in *.
  destruct d; try done; simpl in *; eexists _, _; (split; [done|done]).
Qed.

Lemma isnumeric_str_int z : 0 ≤ z → isnumeric (str_int z) = true.
Proof.
  intros Hz. pose proof (all_digits_numeric _ (all_digits_str_int z Hz)) as H.
  destruct (str_int_first_digit z Hz) as (c & r & Heq & _).
  by rewrite Heq in *.
Qed.

(** [int(str(n)) == n] *)
Lemma int_str_int z : 0 ≤ z → int (str_int z) = ret z.
Proof.
  intros Hz. unfold int. rewrite isnumeric_int_literal by by apply isnumeric_str_int.
  assert (int_unsigned (str_int z) = int_digits 0 false (str_int z)) as ->.
  { destruct (str_int_first_digit z Hz) as (c & r & -> & Hc).
    unfold int_unsigned. by rewrite Hc. }
  destruct (str_int_uint z Hz) as (d & -> & _ & Hd).
  by rewrite int_digits_string_of_uint, uval_of_uint, Hd.
Qed.

End PyFacts.

(** ** The index-expression resolver *)

Section Resolver.
Import PolarsMas.

Lemma contains_app c a b : contains c (a ++ b) = contains c a || contains c b.
Proof. induction a as [|d r IH]; simpl; [done|]. by destruct (Ascii.eqb d c). Qed.

Lemma contains_cons_same c b : contains c (String c b) = true.
Proof. simpl. by rewrite Ascii.eqb_refl. Qed.

Lemma split_no_sep sep a : contains sep a = false → split sep a = [a].
Proof.
  induction a as [|c r IH]; simpl; [done|].
  destruct (Ascii.eqb c sep); [done|]. intros H. by rewrite IH.
Qed.

Lemma split_app_sep sep a b :
  contains sep a = false → split sep (a ++ String sep b) = a :: split sep b.
Proof.
  induction a as [|c r IH]; simpl.
  - intros _. by rewrite Ascii.eqb_refl.
  - destruct (Ascii.eqb c sep); [done|]. intros H. by rewrite IH.
Qed.

Lemma all_numeric_app_sep sep a b :
  is_numeric_char sep = false → all_numeric (a ++ String sep b) = false.
Proof.
  intros Hs. induction a as [|c r IH]; simpl; [by rewrite Hs|].
  rewrite IH. apply andb_false_r.
Qed.

Lemma isnumeric_app_sep sep a b :
  is_numeric_char sep = false → isnumeric (a ++ String sep b) = false.
Proof.
  intros Hs. pose proof (all_numeric_app_sep sep a b Hs) as H.
  destruct a; simpl in *; [by rewrite Hs|done].
Qed.

Lemma str_int_no_char d z : is_digit d = false → 0 ≤ z → contains d (str_int z) = false.
Proof.
  intros Hd Hz. apply all_digits_contains; [done|].
  by apply all_digits_str_int.
Qed.

Lemma str_int_nonempty z : 0 ≤ z → String.eqb (str_int z) "" = false.
Proof.
  intros Hz. pose proof (isnumeric_str_int z Hz) as H.
  by destruct (str_int z).
Qed.

Lemma match_no_comma indices col_names :
  contains "," indices = false →
  _match_columns_to_indices indices col_names = match_single indices col_names.
Proof. intros H. unfold _match_columns_to_indices. by rewrite H. Qed.

Lemma getitem_lookup {A} (l : list A) (i : Z) x :
  0 ≤ i → l !! Z.to_nat i = Some x → getitem l i = ret x.
Proof.
  intros Hi Hx. unfold getitem.
  destruct (Z.ltb_spec i 0); [lia|]. destruct (Z.ltb_spec i 0); [lia|].
  by rewrite Hx.
Qed.

Lemma slice_in_range {A} (l : list A) (lo hi : Z) :
  0 ≤ lo ≤ len l → 0 ≤ hi ≤ len l →
  slice l lo hi = take (Z.to_nat (hi - lo)) (drop (Z.to_nat lo) l).
Proof.
  intros Hlo Hhi. unfold slice, slice_bound.
  destruct (Z.ltb_spec lo 0); [lia|]. destruct (Z.ltb_spec hi 0); [lia|].
  by rewrite !Z.min_l by lia.
Qed.




(** The shape of a range expression [a-b]: not numeric, one dash. *)
Lemma range_shape a b col_names :
  contains "-" a = false → contains "-" b = false →
  match_single (a ++ String "-" b) col_names
  = (let* start_idx := int a in
     if start_idx >=? len col_names then
       raise ValueError
         ("Start index " ++ str_int start_idx
            ++ " out of range for input file column indices. "
            ++ str_int (len col_names) ++ " columns found.")
     else
       let* end_too_big :=
         (if negb (String.eqb b "")
          then let* e := int b in ret (e >=? len col_names)
          else ret false) in
       if end_too_big then
         raise ValueError
           ("End index " ++ b ++ " out of range for "
              ++ str_int (len col_names)
              ++ " columns. If you want to use all remaining columns, use "
              ++ str_int start_idx ++ "-.")
       else if negb (String.eqb b "") then
         let* end_idx := int b in
         ret (slice col_names start_idx end_idx)
       else ret (slice_from col_names start_idx)).
Proof.
  intros Ha Hb. unfold match_single.
  rewrite isnumeric_app_sep by done.
  rewrite contains_app, contains_cons_same, orb_true_r.
  by rewrite split_app_sep, split_no_sep by done.
Qed.

Lemma range_closed_ok col_names s e :
  0 ≤ s < len col_names → 0 ≤ e < len col_names →
  match_single (str_int s ++ String "-" (str_int e)) col_names
  = ret (take (Z.to_nat (e - s)) (drop (Z.to_nat s) col_names)).
Proof.
  intros Hs He. rewrite range_shape by (apply str_int_no_char; [done|lia]).
  rewrite !int_str_int by lia. simpl.
  destruct (Z.geb_spec s (len col_names)); [lia|].
  rewrite str_int_nonempty by lia. simpl.
  destruct (Z.geb_spec e (len col_names)); [lia|].
  by rewrite slice_in_range by lia.
Qed.





(** Comma-separated pieces. *)
Lemma split_concat_commas ps :
  ps ≠ [] → Forall (λ p, contains "," p = false) ps →
  split "," (String.concat "," ps) = ps.
Proof.
  induction ps as [|p [|q r] IH]; intros Hne Hall; [done|..].
  - simpl. apply split_no_sep. by inversion Hall.
  - inversion Hall as [|?? Hp Hr]; subst.
    change (String.concat "," (p :: q :: r))
      with (p ++ String "," (String.concat "," (q :: r))).
    rewrite split_app_sep by done. f_equal. by apply IH.
Qed.

Lemma contains_concat_commas ps :
  (2 ≤ length ps)%nat → contains "," (String.concat "," ps) = true.
Proof.
  destruct ps as [|p [|q r]]; simpl length; [lia..|]. intros _.
  change (String.concat "," (p :: q :: r))
    with (p ++ String "," (String.concat "," (q :: r))).
  by rewrite contains_app, contains_cons_same, orb_true_r.
Qed.




End Resolver.

(** ** Lists *)

Section ListFacts.
Context {A : Type}.

Lemma filter_iff_elem (P Q : A → Prop) `{∀ x, Decision (P x), ∀ x, Decision (Q x)}
    (l : list A) :
  (∀ x, x ∈ l → P x ↔ Q x) → filter P l = filter Q l.
Proof.
  induction l as [|x l IH]; intros HPQ; [done|].
  rewrite !filter_cons. rewrite IH by (intros y Hy; apply HPQ; by right).
  destruct (decide (P x)) as [HP|HP], (decide (Q x)) as [HQ|HQ]; try done;
    apply HPQ in HP || apply HPQ in HQ; done || by left.
Qed.

Lemma filter_all (P : A → Prop) `{∀ x, Decision (P x)} (l : list A) :
  (∀ x, x ∈ l → P x) → filter P l = l.
Proof.
  induction l as [|x l IH]; intros HP; [done|].
  rewrite filter_cons_True by (apply HP; left). f_equal. apply IH.
  intros y Hy. apply HP. by right.
Qed.

Lemma filter_none (P : A → Prop) `{∀ x, Decision (P x)} (l : list A) :
  (∀ x, x ∈ l → ¬ P x) → filter P l = [].
Proof.
  induction l as [|x l IH]; intros HP; [done|].
  rewrite filter_cons_False by (apply HP; left). apply IH.
  intros y Hy. apply HP. by right.
Qed.

Lemma NoDup_sublist_names {B} (l k : list (A * B)) :
  k `sublist_of` l → NoDup l.*1 → NoDup k.*1.
Proof. intros Hs Hnd. eapply sublist_NoDup; [done|]. by apply fmap_sublist. Qed.

End ListFacts.

(** ** The PheWAS frame helpers: sex-specific codes and missing values *)

Section SexSpecificCodes.
Import PolarsAurora.
Variables male_specific_codes female_specific_codes : list string.

Local Abbreviation handle :=
  (handle_sex_specific_codes male_specific_codes female_specific_codes).

(** C9: with [drop=False], the default, the frame comes back as it went
    in; no observation is excluded. *)
Theorem handle_sex_specific_codes_keep (df : Frame) :
  handle df false = ret df.
Proof. reflexivity. Qed.

Lemma filter_elem_nil (codes col_names : list string) :
  (∀ col, col ∈ col_names → col ∉ codes) →
  filter (λ col, col ∈ codes) col_names = [].
Proof.
  intros H. induction col_names as [|c r IH]; [done|].
  rewrite filter_cons_False; [|apply H; left].
  apply IH. intros col Hc. apply H. by right.
Qed.

(** C8 fails on the code: on a frame that holds no sex-specific column,
    [drop=True] unpacks two empty lists into [exclude], which raises a
    [TypeError]; the frame is not returned. *)
Theorem handle_sex_specific_codes_drop_none_present (df : Frame) :
  (∀ col, col ∈ names df →
          (col ∉ male_specific_codes) ∧ (col ∉ female_specific_codes)) →
  handle df true
  = raise TypeError "Expr.exclude() missing 1 required positional argument: 'columns'".
Proof.
  intros H. unfold handle_sex_specific_codes.
  rewrite !filter_elem_nil; [done|intros col Hc; by apply H..].
Qed.

Lemma filter_excluded (df : Frame) :
  filter (λ c : string * series,
            c.1 ∉ (filter (λ col, col ∈ male_specific_codes) (names df)
                     ++ filter (λ col, col ∈ female_specific_codes) (names df))%list)
    (columns df)
  = filter (λ c, (c.1 ∉ male_specific_codes) ∧ (c.1 ∉ female_specific_codes))
      (columns df).
Proof.
  apply filter_iff_elem. intros [n s] Hin.
  assert (n ∈ names df) by (apply list_elem_of_fmap; by exists (n, s)).
  simpl. rewrite not_elem_of_app, !list_elem_of_filter. tauto.
Qed.

(** Where the frame does hold a sex-specific column, [drop=True] removes
    exactly the columns named in either code list and keeps the others,
    with their rows, in schema order. *)
Lemma handle_sex_specific_codes_drop_some_present (df : Frame) :
  NoDup (names df) →
  (∃ col, col ∈ names df ∧ (col ∈ male_specific_codes ∨ col ∈ female_specific_codes)) →
  handle df true
  = ret (mkFrame (lazy df)
           (filter (λ c, (c.1 ∉ male_specific_codes) ∧ (c.1 ∉ female_specific_codes))
              (columns df))).
Proof.
  intros Hnd (col & Hcol & Hsex). unfold handle_sex_specific_codes. cbv zeta.
  pose proof (filter_excluded df) as Hfilter.
  destruct (filter _ (names df) ++ filter _ (names df))%list as [|a args] eqn:Hargs.
  { apply app_eq_nil in Hargs as [Hm Hf].
    assert (col ∉ filter (λ col, col ∈ male_specific_codes) (names df)) as H1
      by (rewrite Hm; apply not_elem_of_nil).
    assert (col ∉ filter (λ col, col ∈ female_specific_codes) (names df)) as H2
      by (rewrite Hf; apply not_elem_of_nil).
    rewrite list_elem_of_filter in H1, H2. tauto. }
  unfold select. simpl. rewrite app_nil_r, Hfilter.
  destruct (decide _) as [|Hdup]; [done|]. destruct Hdup.
  apply (NoDup_sublist_names (columns df)); [|done]. apply sublist_filter.
Qed.

End SexSpecificCodes.

Section MissingValues.
Import PolarsAurora.

(** C6 fails on the code: for each of the seven fill strategies
    [handle_missing] passes the keyword [subset] to [fill_null], which
    has no such parameter; the call raises a [TypeError] and no frame is
    returned. *)
Theorem handle_missing_fill_raises (df : Frame) (predictors : list string)
    (strategy : string) :
  strategy ∈ ["forward"; "backward"; "min"; "max"; "mean"; "zero"; "one"] →
  handle_missing df predictors (Some strategy)
  = ([], raise TypeError "fill_null() got an unexpected keyword argument 'subset'").
Proof.
  intros H. unfold handle_missing.
  destruct (decide _) as [|Hn]; [done|]. destruct Hn.
  unfold valid_strategies. right. exact (list_elem_of_fmap_2 Some _ _ H).
Qed.

(** A method outside the list of valid strategies is refused. *)
Lemma handle_missing_unknown (df : Frame) (predictors : list string) (method : string) :
  Some method ∉ valid_strategies →
  (handle_missing df predictors (Some method)).2
  = raise ValueError
      ("Unknown method '" ++ method
         ++ "'. Valid strategies are: [None, 'forward', 'backward', 'min', 'max', 'mean', 'zero', 'one']").
Proof. intros H. unfold handle_missing. by destruct (decide _). Qed.

End MissingValues.

(** ** Frames: columns, rows and masks *)

Section FrameFacts.

Lemma get_column_elem name (cs : list (string * series)) :
  name ∈ cs.*1 → ∃ s, get_column name cs = Some s ∧ (name, s) ∈ cs.
Proof.
  induction cs as [|[n s] cs IH]; simpl; [by intros ?%not_elem_of_nil|].
  destruct (String.eqb_spec n name) as [->|Hne].
  - intros _. exists s. split; [done|left].
  - intros [?|Hin]%elem_of_cons; [done|].
    destruct (IH Hin) as (s' & ? & ?). exists s'. split; [done|by right].
Qed.

Lemma get_column_Some name (cs : list (string * series)) s :
  get_column name cs = Some s → (name, s) ∈ cs.
Proof.
  induction cs as [|[n s'] cs IH]; simpl; [done|].
  destruct (String.eqb_spec n name) as [->|Hne].
  - intros [= ->]. left.
  - intros H. right. by apply IH.
Qed.

Lemma get_column_NoDup name (cs : list (string * series)) s :
  NoDup cs.*1 → (name, s) ∈ cs → get_column name cs = Some s.
Proof.
  induction cs as [|[n s'] cs IH]; simpl; [by intros _ ?%not_elem_of_nil|].
  intros [Hn Hnd]%NoDup_cons [[= -> ->]|Hin]%elem_of_cons.
  - by rewrite String.eqb_refl.
  - destruct (String.eqb_spec n name) as [->|Hne]; [|by apply IH].
    destruct Hn. apply list_elem_of_fmap. by exists (name, s).
Qed.

(** Selecting present columns by name yields them in the order asked. *)
Lemma expand_all_cols (df : Frame) (ps : list string) :
  Forall (λ p, p ∈ names df) ps →
  expand_all (Col <$> ps) df = ret ((λ p, (p, column df p)) <$> ps).
Proof.
  induction 1 as [|p ps Hp _ IH]; [done|].
  cbn [fmap list_fmap expand_all expand].
  unfold column. destruct (get_column_elem p (columns df) Hp) as (s & -> & _).
  simpl. fold (fmap (M:=list) Col ps). by rewrite IH.
Qed.

Lemma length_rows_of (cs : list (string * series)) (h : nat) :
  Forall (λ c, length c.2 = h) cs → length (rows_of cs h) = h.
Proof.
  induction 1 as [|[n s] cs Hs _ IH]; cbn [rows_of]; [by rewrite length_replicate|].
  rewrite length_zip_with, IH. simpl in Hs. lia.
Qed.

(** Reading one column back from the rows. *)
Lemma row_get_rows_of (cs : list (string * series)) (h : nat) p s :
  Forall (λ c, length c.2 = h) cs → get_column p cs = Some s →
  row_get p <$> rows_of cs h = Some <$> s.
Proof.
  induction 1 as [|[n s'] cs Hs Hall IH]; simpl; [done|].
  destruct (String.eqb_spec n p) as [->|Hne].
  - intros [= ->]. simpl in Hs.
    pose proof (length_rows_of cs h Hall) as Hlen.
    revert Hs Hlen. generalize (rows_of cs h). clear. intros R.
    revert h R. induction s as [|c s IH]; intros h R Hs HR; [done|].
    destruct R as [|r R]; simpl in *; [lia|].
    rewrite String.eqb_refl. f_equal. apply (IH (length R)); lia.
  - intros Hget. rewrite <- (IH Hget). simpl in Hs.
    pose proof (length_rows_of cs h Hall) as Hlen.
    revert Hs Hlen. generalize (rows_of cs h).
    apply String.eqb_neq in Hne. clear -Hne. intros R.
    revert h R. induction s' as [|c s IH]; intros h R Hs HR.
    { destruct R; simpl in *; [done|lia]. }
    destruct R as [|r R]; simpl in *; [lia|].
    rewrite Hne. f_equal. apply (IH (length R)); lia.
Qed.

Lemma zip_mask_rows p (g : row → bool) (R : list row) (s : series) :
  row_get p <$> R = Some <$> s →
  zip_with andb (is_not_null <$> s) (g <$> R)
  = (λ r, match row_get p r with Some None => false | _ => true end && g r) <$> R.
Proof.
  revert s. induction R as [|r R IH]; intros [|c s]; csimpl; try done.
  intros [= Hc Hrest]. rewrite Hc, (IH s Hrest). by destruct c.
Qed.

(** The mask of [drop_nulls] marks the rows complete on the subset. *)
Lemma keep_mask_rows (df : Frame) (ps : list string) (h : nat) :
  Forall (λ c, length c.2 = h) (columns df) →
  Forall (λ p, p ∈ names df) ps →
  keep_mask ((λ p, column df p) <$> ps) h = complete_on ps <$> rows_of (columns df) h.
Proof.
  intros Hall. induction 1 as [|p ps Hp _ IH]; csimpl.
  - rewrite <- (length_rows_of _ _ Hall) at 1.
    generalize (rows_of (columns df) h). intros R.
    induction R; simpl; by f_equal.
  - rewrite IH. unfold column.
    destruct (get_column_elem p (columns df) Hp) as (s & Hs & _). rewrite Hs. simpl.
    rewrite (zip_mask_rows p _ _ s); [done|]. by apply row_get_rows_of.
Qed.

Lemma filter_mask_fmap {A} (f : A → bool) (l : list A) :
  filter_mask (f <$> l) l = filter (λ x, f x = true) l.
Proof.
  induction l as [|x l IH]; csimpl; [done|]. rewrite filter_cons, IH.
  destruct (f x); by destruct (decide _).
Qed.

Lemma filter_mask_zip_with {A B C} (f : A → B → C) m (a : list A) (b : list B) :
  filter_mask m (zip_with f a b) = zip_with f (filter_mask m a) (filter_mask m b).
Proof.
  revert a b. induction m as [|x m IH]; intros a b.
  - by destruct a, b.
  - destruct a as [|y a], b as [|z b]; simpl; try done.
    + by destruct x; [|destruct (filter_mask m a)].
    + destruct x; simpl; by rewrite IH.
Qed.

Lemma filter_mask_replicate {A} m (x : A) :
  filter_mask m (replicate (length m) x) = replicate (length (filter_mask m m)) x.
Proof. induction m as [|[] m IH]; simpl; by rewrite ?IH. Qed.

Lemma length_filter_mask {A} m (l : list A) :
  length l = length m → length (filter_mask m l) = length (filter_mask m m).
Proof.
  revert l. induction m as [|[] m IH]; intros [|x l]; simpl; try done;
    intros [= Hl]; by rewrite (IH l Hl).
Qed.

(** Masking every column masks the rows. *)
Lemma rows_of_filter_mask (cs : list (string * series)) m :
  Forall (λ c, length c.2 = length m) cs →
  rows_of (prod_map id (filter_mask m) <$> cs) (length (filter_mask m m))
  = filter_mask m (rows_of cs (length m)).
Proof.
  induction 1 as [|[n s] cs Hs _ IH]; csimpl.
  - by rewrite filter_mask_replicate.
  - by rewrite IH, filter_mask_zip_with.
Qed.

Lemma wrap64_small (z : Z) : - 2 ^ 63 ≤ z < 2 ^ 63 → wrap64 z = z.
Proof. intros Hz. unfold wrap64. rewrite Z.mod_small; lia. Qed.

Lemma wf_lengths (df : Frame) :
  wf df → Forall (λ c, length c.2 = Z.to_nat (height df)) (columns df).
Proof.
  intros [_ H]. eapply Forall_impl; [done|]. simpl. unfold len. lia.
Qed.

Lemma height_rows (df : Frame) : wf df → len (rows df) = height df.
Proof.
  intros Hwf. unfold rows, len at 1. rewrite length_rows_of by by apply wf_lengths.
  unfold height, len. destruct (columns df) as [|[??]?]; lia.
Qed.

End FrameFacts.

(** ** Dropping the rows with missing predictors *)

Section DropMissing.
Import PolarsAurora.

Lemma row_get_complete (ps : list string) (r : row) p :
  complete_on ps r = true → p ∈ ps → row_get p r ≠ Some None.
Proof.
  unfold complete_on. rewrite forallb_forall. intros H Hp.
  specialize (H p (proj1 (list_elem_of_In _ _) Hp)). by destruct (row_get p r) as [[]|].
Qed.

Lemma names_prod_map (f : series → series) (cs : list (string * series)) :
  (prod_map id f <$> cs).*1 = cs.*1.
Proof. rewrite <- list_fmap_compose. by apply list_fmap_ext. Qed.

(** [drop_nulls] keeps the rows that are complete on the subset, in order. *)
Lemma drop_nulls_rows (df : Frame) (subset : list string) :
  wf df → Forall (λ p, p ∈ names df) subset →
  ∃ new_df,
    drop_nulls subset df = ret new_df
    ∧ wf new_df
    ∧ lazy new_df = lazy df
    ∧ names new_df = names df
    ∧ rows new_df = filter (λ r, complete_on subset r = true) (rows df).
Proof.
  intros Hwf Hps. unfold drop_nulls. rewrite expand_all_cols by done. simpl.
  eexists. split; [done|].
  rewrite <- list_fmap_compose.
  change (snd ∘ _) with (λ p, column df p).
  pose proof (wf_lengths df Hwf) as Hlen.
  rewrite (keep_mask_rows df) by done.
  fold (rows df). set (m := complete_on subset <$> rows df).
  assert (length m = Z.to_nat (height df)) as Hm.
  { unfold m, rows. by rewrite length_fmap, length_rows_of. }
  rewrite <- Hm in Hlen.
  set (new_df := mkFrame (lazy df) (prod_map id (filter_mask m) <$> columns df)).
  assert (height new_df = len (filter_mask m m)) as Hh.
  { unfold height, new_df. simpl. destruct (columns df) as [|[n s] cs] eqn:Hcs; csimpl.
    - unfold height in Hm. rewrite Hcs in Hm. by destruct m.
    - inversion Hlen as [|?? Hs _]; subst. simpl in Hs.
      unfold len. by rewrite (length_filter_mask m s). }
  split_and!; [split| | |].
  - unfold names, new_df. simpl. rewrite names_prod_map. apply Hwf.
  - rewrite Hh. unfold new_df. simpl. apply Forall_fmap.
    eapply Forall_impl; [exact Hlen|]. intros [n s] Hs. simpl in *.
    unfold len. by rewrite (length_filter_mask m s).
  - done.
  - unfold names, new_df. simpl. apply names_prod_map.
  - unfold rows at 1. rewrite Hh. unfold len. rewrite Nat2Z.id.
    unfold new_df. simpl. rewrite rows_of_filter_mask by done.
    rewrite Hm. fold (rows df). apply filter_mask_fmap.
Qed.

(** C5: with [method=None], on a frame that holds the independent
    columns, [handle_missing] returns the frame restricted to the rows
    without a null in any independent column, in their order and with
    the same schema; the count it prints is the number of rows before
    minus the number of rows after (nothing is printed when the two are
    equal); and no row of the output has a null in an independent
    column. *)
Theorem handle_missing_drop (df : Frame) (predictors : list string) :
  wf df → Forall (λ p, p ∈ names df) predictors →
  ∃ new_df,
    let dropped := len (rows df) - len (rows new_df) in
    handle_missing df predictors None
    = (if dropped =? 0 then []
       else ["Dropped " ++ str_int dropped ++ " rows with missing values."],
       ret new_df)
    ∧ names new_df = names df
    ∧ rows new_df = filter (λ r, complete_on predictors r = true) (rows df)
    ∧ (∀ r p, r ∈ rows new_df → p ∈ predictors → row_get p r ≠ Some None).
Proof.
  intros Hwf Hps.
  destruct (drop_nulls_rows df predictors Hwf Hps)
    as (new_df & Hdrop & Hwf' & Hlazy & Hn & Hrows).
  exists new_df. cbv zeta. split_and!; [|done|done|].
  - rewrite !height_rows by done.
    unfold handle_missing. destruct (decide _) as [_|Hn']; [|destruct Hn'; left].
    rewrite Hdrop. cbv beta iota delta [ret]. rewrite Hlazy.
    replace (height (collect new_df)) with (height new_df) by done.
    replace (height (collect df)) with (height df) by done.
    destruct (Z.eqb_spec (height new_df) (height df)) as [Heq|Hne].
    + rewrite Heq, Z.sub_diag. simpl. by destruct (lazy df).
    + destruct (Z.eqb_spec (height df - height new_df) 0); [lia|].
      by destruct (lazy df).
  - intros r p Hr Hp. rewrite Hrows in Hr.
    apply list_elem_of_filter in Hr as [Hr _]. by eapply row_get_complete.
Qed.

End DropMissing.

(** ** The minimum-count filter on phenotypes *)

Section FilterByCount.
Import PolarsAurora.

Variable df : Frame.
Variable phenotypes : list string.
Variable min_cases : Z.

Hypothesis df_wf : wf df.
Hypothesis phenotypes_distinct : NoDup phenotypes.
Hypothesis phenotypes_present : Forall (λ p, p ∈ names df) phenotypes.

Local Abbreviation pheno_data := (pheno_frame df phenotypes).
Local Abbreviation target := (target_of df).
Local Abbreviation kept := (survivors df phenotypes min_cases).
Local Abbreviation result_frame := (filtered_frame df phenotypes min_cases).

Lemma select_phenotypes : select (Col <$> phenotypes) df = ret pheno_data.
Proof.
  unfold select. rewrite expand_all_cols by done. simpl.
  rewrite <- list_fmap_compose.
  replace (fst ∘ _ <$> phenotypes) with phenotypes
    by (symmetry; rewrite <- (list_fmap_id phenotypes) at 2; by apply list_fmap_ext).
  by destruct (decide (NoDup phenotypes)).
Qed.

(** Aggregating every column and transposing gives one column, holding
    the aggregate of each phenotype in the order of [phenotypes]; with
    no phenotype at all it gives no column. *)
Lemma counts_of_aggregate (agg : Frame → Frame) (f : series → Z) :
  (∀ d, columns (agg d) = prod_map id (λ s, [Some (f s)]) <$> columns d) →
  columns (counts_of agg pheno_data)
  = match phenotypes with
    | [] => []
    | _ :: _ => [("column_0", (λ p, Some (f (column df p))) <$> phenotypes)]
    end.
Proof.
  intros Hcols.
  assert (columns (counts_of agg pheno_data) = columns (transpose (agg pheno_data)))
    as -> by (unfold counts_of; by destruct (lazy pheno_data)).
  unfold transpose, height. cbn [columns]. rewrite Hcols. unfold pheno_frame.
  cbn [columns]. destruct phenotypes as [|p ps]; [done|]. csimpl.
  do 3 f_equal. rewrite <- !list_fmap_compose. by apply list_fmap_ext.
Qed.

Lemma to_series_counts (agg : Frame → Frame) (f : series → Z) :
  (∀ d, columns (agg d) = prod_map id (λ s, [Some (f s)]) <$> columns d) →
  to_series (counts_of agg pheno_data)
  = ret ((λ p, Some (f (column df p))) <$> phenotypes).
Proof.
  intros Hcols. unfold to_series. rewrite (counts_of_aggregate agg f Hcols).
  by destruct phenotypes.
Qed.

Lemma to_series_controls :
  to_series (sub (counts_of count pheno_data) (counts_of sum pheno_data))
  = ret (zip_with cell_sub ((λ p, Some (col_count (column df p))) <$> phenotypes)
           ((λ p, Some (case_count (column df p))) <$> phenotypes)).
Proof.
  unfold to_series, sub. cbn [columns].
  rewrite (counts_of_aggregate count col_count), (counts_of_aggregate sum col_sum)
    by done.
  by destruct phenotypes.
Qed.

Lemma target_frame_rows (ps : list string) :
  target_frame ps
    ((λ p, Some (case_count (column df p))) <$> ps)
    (zip_with cell_sub ((λ p, Some (col_count (column df p))) <$> ps)
       ((λ p, Some (case_count (column df p))) <$> ps))
    ((λ p, Some (col_count (column df p))) <$> ps)
  = ret (target <$> ps).
Proof. induction ps as [|p ps IH]; csimpl; [done|]. by rewrite IH. Qed.

Lemma filter_target (P : target_row → Prop) `{∀ r, Decision (P r)} (ps : list string) :
  filter P (target <$> ps) = target <$> filter (λ p, P (target p)) ps.
Proof.
  induction ps as [|p ps IH]; csimpl; [done|].
  rewrite !filter_cons, IH. by destruct (decide _).
Qed.

Lemma sorted_intersection_survivors :
  sorted_intersection phenotypes kept = merge_sort String.le kept.
Proof.
  unfold sorted_intersection.
  apply (Sorted_unique String.le); [apply Sorted_merge_sort, _..|].
  rewrite !merge_sort_Permutation.
  apply NoDup_Permutation.
  - apply NoDup_elements.
  - by apply NoDup_filter.
  - intros p. rewrite elem_of_elements, elem_of_intersection, !elem_of_list_to_set.
    unfold survivors. rewrite list_elem_of_filter. tauto.
Qed.

Lemma survivors_sorted_elem p :
  p ∈ merge_sort String.le kept
  ↔ p ∈ phenotypes ∧ enough min_cases (column df p) = true.
Proof.
  rewrite merge_sort_Permutation. unfold survivors.
  rewrite list_elem_of_filter. tauto.
Qed.

Lemma names_filtered_frame :
  names result_frame
  = (filter (λ n, n ∉ phenotypes) (names df) ++ merge_sort String.le kept)%list.
Proof.
  unfold names, filtered_frame. simpl. rewrite fmap_app. f_equal.
  - generalize (columns df). intros cs.
    induction cs as [|[n s] cs IH]; csimpl; [done|].
    rewrite !filter_cons. simpl. destruct (decide _); csimpl; by rewrite IH.
  - rewrite <- list_fmap_compose. rewrite <- list_fmap_id. by apply list_fmap_ext.
Qed.

Lemma NoDup_names_filtered_frame : NoDup (names result_frame).
Proof.
  rewrite names_filtered_frame. apply NoDup_app. split_and!.
  - apply NoDup_filter, df_wf.
  - intros n [Hn _]%list_elem_of_filter [Hp _]%survivors_sorted_elem. done.
  - rewrite merge_sort_Permutation. by apply NoDup_filter.
Qed.

Lemma select_filtered :
  select (AllExclude phenotypes :: (Col <$> merge_sort String.le kept)) df
  = ret result_frame.
Proof.
  unfold select. cbn [expand_all expand]. rewrite expand_all_cols.
  - simpl. destruct (decide _) as [|Hn]; [done|].
    destruct Hn. apply NoDup_names_filtered_frame.
  - apply Forall_forall. intros p [Hp _]%survivors_sorted_elem.
    by eapply Forall_forall in phenotypes_present.
Qed.

(** What [filter_by_count] computes on a well-formed call. *)
Lemma filter_by_count_eq :
  filter_by_count df phenotypes min_cases = (dropped_message df phenotypes min_cases, ret result_frame).
Proof.
  unfold filter_by_count.
  rewrite select_phenotypes. cbn [bind ret].
  rewrite (to_series_counts sum col_sum), to_series_controls,
    (to_series_counts count col_count) by done.
  cbn [bind ret]. fold case_count. rewrite target_frame_rows. cbn [bind ret].
  rewrite !filter_target.
  replace (filter _ phenotypes) with (excluded df phenotypes min_cases); last first.
  { apply list_filter_iff. intros p. unfold enough, target_of. simpl.
    rewrite orb_true_iff, andb_false_iff.
    rewrite !Z.ltb_lt, !Z.geb_leb, !Z.leb_gt. done. }
  replace (phenotype <$> (target <$> _)) with kept; last first.
  { rewrite <- list_fmap_compose. unfold survivors.
    rewrite <- list_fmap_id at 1. by apply list_fmap_ext. }
  rewrite sorted_intersection_survivors, select_filtered.
  unfold dropped_message, len. by rewrite !length_fmap.
Qed.


Lemma phenotype_in_result p :
  p ∈ phenotypes →
  p ∈ names result_frame ↔ enough min_cases (column df p) = true.
Proof.
  intros Hp. rewrite names_filtered_frame, elem_of_app, list_elem_of_filter.
  rewrite survivors_sorted_elem. tauto.
Qed.

Lemma result_columns_from_input name s :
  (name, s) ∈ columns result_frame → name ∈ names df ∧ s = column df name.
Proof.
  unfold filtered_frame. simpl. intros [Hin|Hin]%elem_of_app.
  - apply list_elem_of_filter in Hin as [_ Hin]. split.
    + apply list_elem_of_fmap. by exists (name, s).
    + unfold column. by rewrite (get_column_NoDup name _ s) by (done || apply df_wf).
  - apply list_elem_of_fmap in Hin as (p & [= -> ->] & Hp).
    split; [|done]. apply survivors_sorted_elem in Hp as [Hp _].
    by eapply Forall_forall in phenotypes_present.
Qed.

Lemma column_length name : name ∈ names df → len (column df name) = height df.
Proof.
  intros (s & Hs & Hin)%get_column_elem. unfold column. rewrite Hs. simpl.
  destruct df_wf as [_ Hlen]. rewrite Forall_forall in Hlen.
  exact (Hlen _ Hin).
Qed.

Lemma result_columns_none :
  columns result_frame = []
  ↔ Forall (λ n, n ∈ phenotypes) (names df) ∧ kept = [].
Proof.
  unfold filtered_frame. cbn [columns]. split.
  - intros [Hnon Hkept]%app_eq_nil. split.
    + apply Forall_forall. intros n ([n' s] & -> & Hin)%list_elem_of_fmap.
      destruct (decide (n' ∈ phenotypes)) as [|Hn]; [done|].
      assert ((n', s) ∈ filter (λ c : string * series, c.1 ∉ phenotypes) (columns df))
        as Hf by by apply list_elem_of_filter.
      rewrite Hnon in Hf. by apply not_elem_of_nil in Hf.
    + apply fmap_nil_inv in Hkept. apply Permutation_nil_r.
      by rewrite <- Hkept, merge_sort_Permutation.
  - intros [Hall Hkept]. rewrite Hkept. apply app_nil. split; [|done].
    apply filter_none. intros [n s] Hin Hn. apply Hn. simpl.
    rewrite Forall_forall in Hall. apply Hall, list_elem_of_fmap. by exists (n, s).
Qed.

(** C10 (as amended): the frame returned lists first the columns that
    are no phenotypes, in their order in the input, then the phenotypes
    that passed, sorted by name; each column of the result is the
    input's column of that name, cell for cell, so the result has as
    many rows as the input whenever it has a column. It has none, and
    height 0, exactly when every column of the input is a listed
    phenotype and no phenotype passes. *)
Theorem filter_by_count_schema :
  ∃ new_df kept_sorted,
    (filter_by_count df phenotypes min_cases).2 = ret new_df
    ∧ names new_df = (filter (λ n, n ∉ phenotypes) (names df) ++ kept_sorted)%list
    ∧ Sorted String.le kept_sorted
    ∧ kept_sorted ≡ₚ filter (λ p, p ∈ names new_df) phenotypes
    ∧ (∀ name, name ∈ names new_df → column new_df name = column df name)
    ∧ Forall (λ c, len c.2 = height df) (columns new_df)
    ∧ (columns new_df ≠ [] → height new_df = height df)
    ∧ (columns new_df = [] → height new_df = 0)
    ∧ (columns new_df = []
       ↔ Forall (λ n, n ∈ phenotypes) (names df) ∧ kept_sorted = []).
Proof.
  exists result_frame, (merge_sort String.le kept).
  assert (Forall (λ c : string * series, len c.2 = height df) (columns result_frame))
    as Hrows.
  { apply Forall_forall. intros [name s] [Hn ->]%result_columns_from_input.
    by apply column_length. }
  split_and!.
  - by rewrite filter_by_count_eq.
  - apply names_filtered_frame.
  - apply Sorted_merge_sort, _.
  - rewrite merge_sort_Permutation. unfold survivors.
    erewrite filter_iff_elem; [done|]. intros p Hp. simpl.
    by rewrite phenotype_in_result.
  - intros name (s & Hs & Hin)%get_column_elem. unfold column at 1. rewrite Hs.
    simpl. by apply result_columns_from_input in Hin as [_ ->].
  - done.
  - intros Hne. unfold height at 1.
    destruct (columns result_frame) as [|[n s] cs]; [done|].
    by inversion Hrows.
  - intros Hnil. unfold height. by rewrite Hnil.
  - rewrite result_columns_none. split; intros [Hall Hk]; (split; [done|]).
    + by rewrite Hk.
    + apply Permutation_nil_r. by rewrite <- Hk, merge_sort_Permutation.
Qed.

End FilterByCount.

(** ** Counting cases and controls in a binary column *)

Section BinaryCounts.
Import PolarsAurora.






End BinaryCounts.

(** ** The per-group regression wrapper *)

Section FirthRegression.
Import ModelFuncs.

Variable float : Type.
Variable exp : float → float.
Variable fit : Frame → list cell → result (Fitted float).
Variable check_grouped_independents_for_constants :
  Frame → list string → option string → result (list string).

Local Abbreviation regression :=
  (polars_firth_regression float exp fit check_grouped_independents_for_constants).
Local Abbreviation design :=
  (design_matrix check_grouped_independents_for_constants).

Variable struct_col : Struct.
Variable independents : list string.
Variable dependent_values : string.
Variable min_cases : Z.

Local Abbreviation run := (regression struct_col independents dependent_values min_cases).
Local Abbreviation before :=
  (before_test check_grouped_independents_for_constants struct_col independents).

Ltac in_list H :=
  repeat (apply elem_of_cons in H as [->|H]; [reflexivity|]);
  by apply elem_of_nil in H.

Lemma dom_keys (d : gmap string (pyval float)) :
  (∀ k, k ∈ result_keys → is_Some (d !! k)) →
  (∀ k, is_Some (d !! k) → k ∈ result_keys) →
  dom d = list_to_set result_keys.
Proof.
  intros H1 H2. apply set_eq. intros k.
  rewrite elem_of_dom, elem_of_list_to_set. split; auto.
Qed.

(** Every update of the wrapper writes keys that [output_struct] holds
    from the start, so the record keeps its ten keys. *)
Lemma update_keeps_keys (d : gmap string (pyval float)) kvs :
  dom d = list_to_set result_keys →
  Forall (λ kv, kv.1 ∈ result_keys) kvs →
  dom (update float d (list_to_map kvs)) = list_to_set result_keys.
Proof.
  intros Hd Hk. unfold update. rewrite dom_union_L, Hd, dom_list_to_map_L.
  apply set_eq. intros k. rewrite elem_of_union, !elem_of_list_to_set.
  split; [|by right]. intros [Hin|Hin]; [|done].
  apply list_elem_of_fmap in Hin as (kv & -> & Hin).
  by eapply Forall_forall in Hk.
Qed.

Lemma output_struct0_keys : dom (output_struct0 float) = list_to_set result_keys.
Proof. unfold output_struct0. by rewrite dom_list_to_map_L. Qed.

Ltac is_key :=
  cbn [fst]; unfold result_keys;
  repeat first [ by constructor 1 | constructor 2 ].

Ltac keys :=
  first
    [ apply output_struct0_keys
    | apply update_keeps_keys;
      [keys|repeat (apply Forall_cons; split; [is_key|]); apply Forall_nil] ].

(** The design matrix is there when the statements before the first
    test have all returned. *)
Lemma design_before X first :
  design struct_col independents = ret (X, first)
  ↔ ∃ dep pred, before = ret (dep, pred, X, first).
Proof.
  unfold design_matrix. destruct before as [e|[[[dep pred] X'] first']]; simpl.
  - split; [done|]. by intros (? & ? & ?).
  - split.
    + intros [= <- <-]. eauto.
    + by intros (? & ? & [= _ _ <- <-]).
Qed.

(** An exception raised before the first test escapes. *)
Lemma before_test_escapes e : before = inl e → run = ([], inl e).
Proof. intros H. unfold polars_firth_regression. by rewrite H. Qed.

(** The constant-predictor path. *)
Lemma constant_predictor_path dep pred X first :
  before = ret (dep, pred, X, first) → first ∉ names X →
  run
  = ([(WARNING, "Predictor " ++ format_name pred
                  ++ " was removed due to constant values. Skipping analysis.")],
     ret (update float (output_struct0 float)
            (list_to_map
               [("failed_reason", PyStr "Predictor removed due to constant values")]))).
Proof.
  intros Hd Hf. unfold polars_firth_regression. unfold ret in Hd. rewrite Hd.
  by destruct (decide (first ∉ names X)).
Qed.

(** An exception raised by the selection of the response escapes. *)
Lemma response_escapes dep pred X first e :
  before = ret (dep, pred, X, first) → first ∈ names X →
  select [Col dependent_values] (fields struct_col) = inl e →
  run = ([], inl e).
Proof.
  intros Hd Hf Hy. unfold polars_firth_regression. unfold ret in Hd.
  rewrite Hd. destruct (decide (first ∉ names X)); [done|]. by rewrite Hy.
Qed.

(** The path through the fit. *)
Lemma fit_path dep pred X first yframe :
  before = ret (dep, pred, X, first) → first ∈ names X →
  select [Col dependent_values] (fields struct_col) = ret yframe →
  let y := to_numpy_ravel yframe in
  let counted :=
    update float (output_struct0 float)
      (list_to_map [("cases", PyInt (group_cases y));
                    ("controls", PyInt (group_controls y));
                    ("total_n", PyInt (group_total y))]) in
  run
  = match fit X y with
    | inr fl =>
        ([], ret (update float counted
                    (list_to_map
                       [("pval", PyFloat (pvals_0 float fl));
                        ("beta", PyFloat (coef_0 float fl));
                        ("se", PyFloat (bse_0 float fl));
                        ("OR", PyFloat (exp (coef_0 float fl)));
                        ("ci_low", PyFloat (ci_0_0 float fl));
                        ("ci_high", PyFloat (ci_0_1 float fl))])))
    | inl e =>
        ([(ERROR, "Error in Firth regression for " ++ format_name dep ++ ": "
                    ++ exc_msg e)],
         ret (update float counted
                (list_to_map [("failed_reason", PyStr (exc_msg e))])))
    end.
Proof.
  intros Hd Hf Hy. unfold polars_firth_regression. unfold ret in Hd, Hy.
  rewrite Hd. destruct (decide (first ∉ names X)); [done|]. by rewrite Hy.
Qed.

(** [min_cases] is never read. *)
Lemma min_cases_unused m :
  run = regression struct_col independents dependent_values m.
Proof. reflexivity. Qed.

(** C1 fails on the code: on the constant-predictor path the record has
    the failure reason and all-missing statistics, but the function
    returns before it counts, so [cases], [controls] and [total_n] are
    NaN as well, not the group's counts. *)
Theorem constant_predictor_counts_missing X first :
  design struct_col independents = ret (X, first) → first ∉ names X →
  ∃ d,
    run.2 = ret d
    ∧ d !! "failed_reason" = Some (PyStr "Predictor removed due to constant values")
    ∧ (∀ k, k ∈ ["pval"; "beta"; "se"; "OR"; "ci_low"; "ci_high"] → d !! k = Some PyNaN)
    ∧ d !! "cases" = Some PyNaN
    ∧ d !! "controls" = Some PyNaN
    ∧ d !! "total_n" = Some PyNaN.
Proof.
  intros (dep & pred & Hd)%design_before Hf.
  rewrite (constant_predictor_path dep pred X first) by done.
  eexists. split; [done|]. split_and!; try reflexivity.
  intros k Hk. in_list Hk.
Qed.

(** C2 (as amended): once the statements before the [try] block have
    returned, the wrapper returns one record with the ten keys whatever
    the fit does; when the fit raises [e], the record's [failed_reason]
    is [str(e)], its counts are those computed before the fit, and its
    statistics are missing. The statements outside the [try] block are
    not guarded: an exception of the two name reads, of a selection, of
    the constant check or of [independents[0]] escapes, and so does one
    of the selection of the response; the group then gets no record.
    A record is returned exactly when none of them raises. *)
Theorem fit_exception_recorded :
  (∀ dep pred X first yframe,
     before = ret (dep, pred, X, first) →
     select [Col dependent_values] (fields struct_col) = ret yframe →
     let y := to_numpy_ravel yframe in
     (∃ d, run.2 = ret d ∧ dom d = list_to_set result_keys)
     ∧ (∀ e, first ∈ names X → fit X y = inl e →
          ∃ d,
            run = ([(ERROR, "Error in Firth regression for " ++ format_name dep
                              ++ ": " ++ exc_msg e)], ret d)
            ∧ d !! "failed_reason" = Some (PyStr (exc_msg e))
            ∧ d !! "cases" = Some (PyInt (group_cases y))
            ∧ d !! "controls" = Some (PyInt (group_controls y))
            ∧ d !! "total_n" = Some (PyInt (group_total y))
            ∧ (∀ k, k ∈ ["pval"; "beta"; "se"; "OR"; "ci_low"; "ci_high"] →
                    d !! k = Some PyNaN)))
  ∧ (∀ e, before = inl e → run = ([], inl e))
  ∧ (∀ dep pred X first e,
       before = ret (dep, pred, X, first) → first ∈ names X →
       select [Col dependent_values] (fields struct_col) = inl e →
       run = ([], inl e))
  ∧ ((∃ d, run.2 = ret d)
     ↔ ∃ dep pred X first,
         before = ret (dep, pred, X, first)
         ∧ (first ∉ names X
            ∨ ∃ yframe, select [Col dependent_values] (fields struct_col) = ret yframe)).
Proof.
  split_and!.
  - intros dep pred X first yframe Hd Hy y. split.
    + destruct (decide (first ∈ names X)) as [Hin|Hnin].
      * rewrite (fit_path dep pred X first yframe) by done. cbv zeta.
        destruct (fit X (to_numpy_ravel yframe)); eexists; (split; [done|]); keys.
      * rewrite (constant_predictor_path dep pred X first) by done.
        eexists. split; [done|]. keys.
    + intros e Hin He. rewrite (fit_path dep pred X first yframe) by done. cbv zeta.
      fold y. rewrite He. eexists. split; [done|]. split_and!; try reflexivity.
      intros k Hk. in_list Hk.
  - apply before_test_escapes.
  - apply response_escapes.
  - split.
    + intros [d Hrun]. destruct before as [e|[[[dep pred] X] first]] eqn:Hb.
      { by rewrite (before_test_escapes e) in Hrun. }
      exists dep, pred, X, first. split; [done|].
      destruct (decide (first ∈ names X)) as [Hin|Hnin]; [|by left]. right.
      destruct (select [Col dependent_values] (fields struct_col)) as [e|yframe] eqn:Hy;
        [|by eexists].
      by rewrite (response_escapes dep pred X first e) in Hrun.
    + intros (dep & pred & X & first & Hb & Hrest).
      destruct (decide (first ∈ names X)) as [Hin|Hnin].
      * destruct Hrest as [Hnin|[yframe Hy]]; [done|].
        rewrite (fit_path dep pred X first yframe) by done. cbv zeta.
        destruct (fit X (to_numpy_ravel yframe)); by eexists.
      * rewrite (constant_predictor_path dep pred X first) by done. by eexists.
Qed.

(** C3 fails on the code: a group whose recomputed case or control
    count is below [min_cases] is fitted like any other, for the test on
    [min_cases] is commented out and the parameter is never read. The
    record carries the recomputed counts, with the statistics of the
    fit and the sentinel ["nan"] as failure reason when the fit returns,
    and with the message of the exception when it raises. *)
Theorem below_min_cases_still_fitted X first yframe :
  design struct_col independents = ret (X, first) → first ∈ names X →
  select [Col dependent_values] (fields struct_col) = ret yframe →
  let y := to_numpy_ravel yframe in
  group_cases y < min_cases ∨ group_controls y < min_cases →
  (∀ m, run = regression struct_col independents dependent_values m)
  ∧ ∃ d,
      run.2 = ret d
      ∧ d !! "cases" = Some (PyInt (group_cases y))
      ∧ d !! "controls" = Some (PyInt (group_controls y))
      ∧ d !! "total_n" = Some (PyInt (group_total y))
      ∧ match fit X y with
        | inr fl =>
            d !! "failed_reason" = Some (PyStr "nan")
            ∧ d !! "pval" = Some (PyFloat (pvals_0 float fl))
            ∧ d !! "beta" = Some (PyFloat (coef_0 float fl))
            ∧ d !! "se" = Some (PyFloat (bse_0 float fl))
            ∧ d !! "OR" = Some (PyFloat (exp (coef_0 float fl)))
            ∧ d !! "ci_low" = Some (PyFloat (ci_0_0 float fl))
            ∧ d !! "ci_high" = Some (PyFloat (ci_0_1 float fl))
        | inl e => d !! "failed_reason" = Some (PyStr (exc_msg e))
        end.
Proof.
  intros (dep & pred & Hd)%design_before Hin Hy y _. split; [apply min_cases_unused|].
  rewrite (fit_path dep pred X first yframe) by done. cbv zeta. fold y.
  destruct (fit X y); eexists; (split; [done|]); split_and!; reflexivity.
Qed.

End FirthRegression.

(** ** The properties at concrete inputs *)

Section Witnesses.
Import PolarsMas PolarsAurora ModelFuncs Examples.



Ltac decided := apply (bool_decide_unpack _); vm_compute; exact I.
Ltac concrete_wf := split; [decided|repeat constructor].

Lemma handle_missing_drop_witness :
  ∃ new_df,
    handle_missing df_missing ["age"; "bmi"] None
    = (["Dropped 2 rows with missing values."], ret new_df)
    ∧ rows new_df
      = [[("age", Some 30); ("bmi", Some 22); ("d1", None)];
         [("age", Some 63); ("bmi", Some 27); ("d1", Some 1)]].
Proof.
  destruct (handle_missing_drop df_missing ["age"; "bmi"]) as (new_df & H1 & _ & H2 & _).
  - concrete_wf.
  - decided.
  - exists new_df. rewrite H2 in H1 |- *. split; [exact H1|reflexivity].
Defined.

Lemma handle_missing_fill_raises_witness :
  handle_missing df_missing ["age"; "bmi"] (Some "mean")
  = ([], raise TypeError "fill_null() got an unexpected keyword argument 'subset'").
Proof.
  apply (handle_missing_fill_raises df_missing ["age"; "bmi"] "mean").
  by repeat constructor.
Defined.

Lemma handle_sex_specific_codes_drop_witness :
  handle_sex_specific_codes male_codes female_codes df_no_sex_codes true
  = raise TypeError "Expr.exclude() missing 1 required positional argument: 'columns'".
Proof.
  apply (handle_sex_specific_codes_drop_none_present male_codes female_codes).
  intros col Hcol. split; apply (bool_decide_unpack _);
    repeat (apply elem_of_cons in Hcol as [->|Hcol]; [by vm_compute|]);
    by apply elem_of_nil in Hcol.
Defined.



Lemma filter_by_count_schema_witness :
  ∃ new_df,
    (filter_by_count df_pheno ["pb"; "pa"; "pc"] 2).2 = ret new_df
    ∧ names new_df = ["age"; "pa"; "pb"]
    ∧ column new_df "age" = column df_pheno "age"
    ∧ height new_df = 4.
Proof.
  destruct (filter_by_count_schema df_pheno ["pb"; "pa"; "pc"] 2)
    as (new_df & kept & H1 & H2 & _ & _ & H3 & _ & H4 & _).
  - concrete_wf.
  - decided.
  - decided.
  - exists new_df. vm_compute in H1. injection H1 as <-.
    split_and!; reflexivity.
Defined.

(** C10, as stated, fails: on a table of four rows whose only column is
    a phenotype that does not pass, the result has no column and so no
    row; the row count is not preserved. *)
Lemma filter_by_count_schema_counterexample :
  height df_only_pheno = 4
  ∧ (filter_by_count df_only_pheno ["pc"] 2).2 = ret (mkFrame false [])
  ∧ height (mkFrame false []) = 0.
Proof. by vm_compute. Qed.

(** The phenotypes come back sorted by name, not in the order asked:
    [pb; pa] goes in, [pa; pb] comes out. *)
Lemma filter_by_count_order_example :
  (filter_by_count df_pheno ["pb"; "pa"; "pc"] 2).2
  = ret (mkFrame false
           [("age", [Some 30; Some 41; Some 52; Some 63]);
            ("pa", [Some 1; Some 0; Some 1; Some 0]);
            ("pb", [Some 1; Some 1; Some 0; Some 0])]).
Proof. by vm_compute. Qed.

(** The failing input of C1: the group has two cases, two controls and
    four rows, and the record says NaN three times. *)
Lemma constant_predictor_counts_missing_witness :
  (∃ d, run_constant.2 = ret d
        ∧ d !! "failed_reason" = Some (PyStr "Predictor removed due to constant values")
        ∧ d !! "cases" = Some PyNaN
        ∧ d !! "controls" = Some PyNaN
        ∧ d !! "total_n" = Some PyNaN)
  ∧ group_cases (column (fields group_constant) "y") = 2
  ∧ group_controls (column (fields group_constant) "y") = 2
  ∧ group_total (column (fields group_constant) "y") = 4.
Proof.
  split; [|by vm_compute].
  destruct (constant_predictor_counts_missing Z exp_stand_in fit_returns
              keep_non_constants group_constant ["x"; "age"] "y" 20
              (mkFrame false [("age", [Some 30; Some 41; Some 52; Some 63])]) "x")
    as (d & H1 & H2 & _ & H3 & H4 & H5).
  - reflexivity.
  - decided.
  - by exists d.
Defined.

Lemma fit_exception_recorded_witness :
  ∃ d,
    run_rare fit_raises
    = ([(ERROR, "Error in Firth regression for d2: Singular matrix")], ret d)
    ∧ d !! "failed_reason" = Some (PyStr "Singular matrix")
    ∧ d !! "cases" = Some (PyInt 1)
    ∧ d !! "controls" = Some (PyInt 3)
    ∧ d !! "total_n" = Some (PyInt 4)
    ∧ d !! "pval" = Some PyNaN.
Proof.
  destruct (fit_exception_recorded Z exp_stand_in fit_raises keep_non_constants
              group_rare ["x"; "age"] "y" 20) as (Hfit & _).
  destruct (Hfit (Some "d2") (Some "x") X_rare "x" y_rare) as [_ H].
  - reflexivity.
  - reflexivity.
  - destruct (H (Raise OtherException "Singular matrix")) as (d & H1 & H2 & H3 & H4 & H5 & H6).
    + by repeat constructor.
    + reflexivity.
    + exists d. split_and!; try done. apply H6. by repeat constructor.
Defined.

(** C2, as stated, fails: an exception raised outside the [try] block
    escapes and the group gets no record, whatever the solver does. So
    it is when the response column is missing, when the list of
    independents is empty, and when the struct holds the rows of two
    dependents. *)
Lemma fit_exception_recorded_counterexample :
  polars_firth_regression Z exp_stand_in fit_raises keep_non_constants
    group_rare ["x"; "age"] "outcome" 20
  = ([], raise ColumnNotFoundError "outcome")
  ∧ polars_firth_regression Z exp_stand_in fit_raises keep_non_constants
      group_rare [] "y" 20
    = ([], raise IndexError "list index out of range")
  ∧ polars_firth_regression Z exp_stand_in fit_raises keep_non_constants
      group_mixed ["x"; "age"] "y" 20
    = ([], raise ValueError
             "can only call `.item()` if the dataframe is of shape (1, 1), or if explicit row/col values are provided; frame has shape (2, 1)").
Proof. by vm_compute. Qed.

(** The failing input of C3: the group has one case, [min_cases] is 20,
    and the fit is run all the same; the record holds what the solver
    said, here the message of the exception it raised. *)
Lemma below_min_cases_still_fitted_witness :
  ∃ d,
    (run_rare fit_raises).2 = ret d
    ∧ d !! "cases" = Some (PyInt 1)
    ∧ d !! "controls" = Some (PyInt 3)
    ∧ d !! "failed_reason" = Some (PyStr "Singular matrix").
Proof.
  destruct (below_min_cases_still_fitted Z exp_stand_in fit_raises keep_non_constants
              group_rare ["x"; "age"] "y" 20 X_rare "x" y_rare)
    as (_ & d & H1 & H2 & H3 & _ & H4).
  - reflexivity.
  - by repeat constructor.
  - reflexivity.
  - left. by vm_compute.
  - by exists d.
Defined.

End Witnesses.

(** * Further properties *)

(** ** The resolver: what it returns and what it raises *)

Section ResolverMore.
Import PolarsMas.

Lemma getitem_elem {A} (l : list A) (i : Z) x : getitem l i = ret x → x ∈ l.
Proof.
unfold getitem. destruct (_ <? 0); [done|].
destruct (l !! _) eqn:Hl; [|done]. intros [= <-].
by eapply list_elem_of_lookup_2.
Qed.

Lemma slice_elem {A} (l : list A) (lo hi : Z) x : x ∈ slice l lo hi → x ∈ l.
Proof.
unfold slice. intros H. by apply subseteq_take, subseteq_drop in H.
Qed.

Lemma slice_from_elem {A} (l : list A) (lo : Z) x : x ∈ slice_from l lo → x ∈ l.
Proof. unfold slice_from. intros H. by apply subseteq_drop in H. Qed.

Lemma match_single_elem indices col_names out c :
match_single indices col_names = ret out → c ∈ out → c ∈ col_names.
Proof.
unfold match_single, bind, ret, raise.
repeat case_match; try done; intros [= <-] Hc.
- apply list_elem_of_singleton in Hc as ->. by eapply getitem_elem.
- by eapply slice_elem.
- by eapply slice_from_elem.
Qed.

Lemma extend_all_elem splits col_names out c :
extend_all splits col_names = ret out → c ∈ out → c ∈ col_names.
Proof.
revert out. induction splits as [|p ps IH]; intros out; cbn [extend_all].
- intros [= <-] ?%not_elem_of_nil. done.
- destruct (String.eqb "" p); [apply IH|].
  unfold bind, ret. destruct (match_single p col_names) as [|cols] eqn:Hp; [done|].
  destruct (extend_all ps col_names) as [|more] eqn:Hps; [done|].
  intros [= <-] [Hc|Hc]%elem_of_app.
  + by eapply match_single_elem.
  + by eapply IH.
Qed.

Lemma match_columns_elem indices col_names out c :
_match_columns_to_indices indices col_names = ret out → c ∈ out → c ∈ col_names.
Proof.
unfold _match_columns_to_indices. intros H Hc.
destruct (contains "," indices).
- by eapply extend_all_elem.
- by eapply match_single_elem.
Qed.

(** Whatever the index expression, the names returned are names of the
    header. *)
Theorem match_columns_to_indices_within_header indices col_names out :
_match_columns_to_indices indices col_names = ret out →
Forall (λ c, c ∈ col_names) out.
Proof. intros H. apply Forall_forall. intros c. by apply (match_columns_elem indices). Qed.

Lemma match_single_value_error indices col_names e :
match_single indices col_names = inl e → exc_cls e = ValueError.
Proof.
unfold match_single.
destruct (isnumeric indices) eqn:Hnum.
- destruct (int indices) as [e'|z] eqn:Hint; simpl.
  { intros [= <-]. by eapply int_value_error. }
  pose proof (isnumeric_int_nonneg indices z Hnum Hint) as Hz.
  destruct (Z.geb_spec z (len col_names)) as [|Hlt]; [by intros [= <-]|].
  destruct (lookup_lt_is_Some_2 col_names (Z.to_nat z)) as [c Hc];
    [unfold len in Hlt; lia|].
  by rewrite (getitem_lookup _ _ c).
- unfold bind, ret, raise, int.
  repeat case_match; unfold raise in *; simplify_eq; try done; by intros [= <-].
Qed.

Lemma extend_all_value_error splits col_names e :
extend_all splits col_names = inl e → exc_cls e = ValueError.
Proof.
induction splits as [|p ps IH]; cbn [extend_all]; [done|].
destruct (String.eqb "" p); [done|].
unfold bind, ret. destruct (match_single p col_names) as [e'|cols] eqn:Hp.
- intros [= <-]. by eapply match_single_value_error.
- destruct (extend_all ps col_names) as [e'|more]; [|done].
  intros [= <-]. by apply IH.
Qed.

Lemma match_columns_value_error indices col_names e :
_match_columns_to_indices indices col_names = inl e → exc_cls e = ValueError.
Proof.
unfold _match_columns_to_indices. destruct (contains "," indices).
- apply extend_all_value_error.
- apply match_single_value_error.
Qed.

(** The resolver raises nothing but [ValueError]: an index that passed
    the bound check is never out of range for the list, so no
    [IndexError] can escape. *)
Theorem match_columns_to_indices_raises_value_error indices col_names e :
_match_columns_to_indices indices col_names = inl e →
exc_cls e = ValueError ∧ exc_cls e ≠ IndexError.
Proof. intros ->%match_columns_value_error. done. Qed.

(** A range whose end is not beyond its start selects nothing, and says
    nothing. *)
Theorem match_columns_to_indices_reversed_range (col_names : list string) (s e : Z) :
0 ≤ e ≤ s → s < len col_names →
_match_columns_to_indices (str_int s ++ "-" ++ str_int e) col_names = ret [].
Proof.
intros He Hs. rewrite match_no_comma.
- etrans; [apply range_closed_ok; lia|].
  by replace (Z.to_nat (e - s)) with 0%nat by lia.
- rewrite !contains_app, !(str_int_no_char ",") by (done || lia). done.
Qed.

Lemma extend_all_empty_pieces n col_names :
extend_all (replicate n "") col_names = ret [].
Proof. induction n as [|n IH]; [done|]. by cbn [replicate extend_all String.eqb]. Qed.

(** An expression made of commas only, however many, resolves to the
    empty list of columns without an error. *)
Theorem match_columns_to_indices_only_commas (n : nat) (col_names : list string) :
_match_columns_to_indices (String.concat "," (replicate (S (S n)) "")) col_names
= ret [].
Proof.
unfold _match_columns_to_indices.
rewrite contains_concat_commas by (rewrite length_replicate; lia).
rewrite split_concat_commas.
- apply extend_all_empty_pieces.
- done.
- by apply Forall_replicate.
Qed.

End ResolverMore.

(** ** Reading the header *)

Section Header.
Import Cli.

Lemma append_cons (c : ascii) (s t : string) : String c s ++ t = String c (s ++ t).
Proof. reflexivity. Qed.

Lemma append_empty_r (s : string) : s ++ "" = s.
Proof. induction s as [|c s IH]; [done|]. by rewrite append_cons, IH. Qed.

Lemma append_snoc_assoc (s : string) (c : ascii) (t : string) :
(s ++ String c "") ++ t = s ++ String c t.
Proof. induction s as [|d s IH]; [done|]. by rewrite !append_cons, IH. Qed.

Lemma split_cons_shape sep s : ∃ h t, split sep s = h :: t.
Proof.
induction s as [|c r (h & t & IH)]; simpl; [eauto|].
destruct (Ascii.eqb c sep); [eauto|]. rewrite IH. eauto.
Qed.

(** With a separator of one character, the scan is the split by
    character that the resolver uses. *)
Lemma split_go_single (c : ascii) (cur s : string) :
split_go (String c "") 0 cur s
= match split c s with
  | h :: t => (cur ++ h) :: t
  | [] => [cur]
  end.
Proof.
revert cur. induction s as [|d r IH]; intros cur; simpl.
- by rewrite append_empty_r.
- replace (startswith r "") with true by by destruct r.
  rewrite andb_true_r, (Ascii.eqb_sym c d).
  destruct (Ascii.eqb d c).
  + rewrite IH, append_empty_r. by destruct (split_cons_shape c r) as (h & t & ->).
  + rewrite IH. destruct (split_cons_shape c r) as (h & t & ->).
    by rewrite append_snoc_assoc.
Qed.

Lemma split_str_single (c : ascii) (s : string) :
split_str (String c "") s = ret (split c s).
Proof.
unfold split_str. simpl. rewrite split_go_single.
by destruct (split_cons_shape c s) as (h & t & ->).
Qed.

Lemma split_concat_sep (c : ascii) (names : list string) :
names ≠ [] → Forall (λ n, contains c n = false) names →
split c (String.concat (String c "") names) = names.
Proof.
induction names as [|p [|q r] IH]; intros Hne Hall; [done|..].
- simpl. apply split_no_sep. by inversion Hall.
- inversion Hall as [|?? Hp Hr]; subst.
  change (String.concat (String c "") (p :: q :: r))
    with (p ++ String c (String.concat (String c "") (q :: r))).
  rewrite split_app_sep by done. f_equal. by apply IH.
Qed.

Lemma readline_line (line rest : string) :
contains newline line = false → contains carriage_return line = false →
readline (line ++ String newline rest) = line ++ String newline "".
Proof.
induction line as [|c r IH]; simpl; [done|].
destruct (Ascii.eqb c newline); [done|]. destruct (Ascii.eqb c carriage_return); [done|].
simpl. intros ??. by rewrite IH.
Qed.

Lemma rstrip_app_space (s : string) (c : ascii) :
is_space c = true → rstrip (s ++ String c "") = rstrip s.
Proof.
intros Hc. unfold rstrip.
induction s as [|d s IH]; simpl; [by rewrite Hc|]. by rewrite IH.
Qed.

Lemma lstrip_app (s t : string) : s ≠ "" → lstrip s = s → lstrip (s ++ t) = s ++ t.
Proof.
unfold lstrip. destruct s as [|c s]; [done|]. simpl. intros _.
destruct (is_space c) eqn:Hc; [|done].
intros H. exfalso. clear -H.
assert (∀ u, String.length (lstrip_chars is_space u) ≤ String.length u)%nat as Hlen.
{ induction u as [|d u IH]; simpl; [done|]. destruct (is_space d); simpl; lia. }
specialize (Hlen s). rewrite H in Hlen. simpl in Hlen. lia.
Qed.

Lemma strip_line (line : string) :
lstrip line = line → rstrip line = line → strip (line ++ String newline "") = line.
Proof.
intros Hl Hr. unfold strip. destruct (decide (line = "")) as [->|Hne]; [done|].
rewrite lstrip_app by done. by rewrite rstrip_app_space.
Qed.

(** A header line made of names joined by a one-character separator is
    read back as those names, as long as no name holds the separator and
    the line holds no line ending and neither starts nor ends with white
    space; what follows the first line is not looked at. *)
Theorem load_input_header_round_trip (c : ascii) (names : list string) (rest : string) :
names ≠ [] → Forall (λ n, contains c n = false) names →
contains newline (String.concat (String c "") names) = false →
contains carriage_return (String.concat (String c "") names) = false →
lstrip (String.concat (String c "") names) = String.concat (String c "") names →
rstrip (String.concat (String c "") names) = String.concat (String c "") names →
_load_input_header (String.concat (String c "") names ++ String newline rest)
  (String c "")
= ret names.
Proof.
intros Hne Hnames Hnl Hcr Hl Hr. unfold _load_input_header.
rewrite readline_line, strip_line, split_str_single by done.
by rewrite split_concat_sep.
Qed.

Lemma split_go_cons sep skip cur s : ∃ h t, split_go sep skip cur s = h :: t.
Proof.
revert skip cur. induction s as [|c r IH]; intros skip cur; cbn [split_go]; [eauto|].
destruct skip; [|apply IH]. destruct (startswith _ _); [eauto|apply IH].
Qed.

(** The header is never empty: with a non-empty separator there is at
    least one name, and a file without any text gives the one name [""];
    the empty separator is a [ValueError]. *)
Theorem load_input_header_shape (content separator : string) :
(separator = "" →
 _load_input_header content separator = raise ValueError "empty separator")
∧ (separator ≠ "" →
   (∃ h t, _load_input_header content separator = ret (h :: t))
   ∧ _load_input_header "" separator = ret [""]).
Proof.
unfold _load_input_header, split_str. split.
- by intros ->.
- intros Hne. apply String.eqb_neq in Hne. rewrite Hne. split; [|done].
  destruct (split_go_cons separator 0 "" (strip (readline content))) as (h & t & ->).
  eauto.
Qed.

End Header.

(** ** Validating the arguments *)

Section Validation.
Import PolarsMas Cli.

Lemma cbind_inr {A B} (m : cmd A) (k : A → cmd B) log b :
cbind m k = (log, inr b) →
∃ l1 a l2, m = (l1, inr a) ∧ k a = (l2, inr b) ∧ log = (l1 ++ l2)%list.
Proof.
unfold cbind. destruct m as [l1 [e|a]]; [done|].
destruct (k a) as [l2 r] eqn:Hk. intros [= <- ->]. by exists l1, a, l2.
Qed.

Lemma cbind_inl {A B} (m : cmd A) (k : A → cmd B) log e :
cbind m k = (log, inl e) →
(m = (log, inl e))
∨ ∃ l1 a l2, m = (l1, inr a) ∧ k a = (l2, inl e) ∧ log = (l1 ++ l2)%list.
Proof.
unfold cbind. destruct m as [l1 [e'|a]]; [intros [= <- <-]; by left|].
destruct (k a) as [l2 r] eqn:Hk. intros [= <- ->]. right. by exists l1, a, l2.
Qed.

Lemma first_missing_None (l cols : list string) :
first_missing l cols = None → Forall (λ x, x ∈ cols) l.
Proof.
unfold first_missing. intros Hhd. apply Forall_forall. intros x Hx.
destruct (decide (x ∈ cols)) as [|Hn]; [done|].
assert (x ∈ filter (λ x, x ∉ cols) l) as Hin by by apply list_elem_of_filter.
destruct (filter _ l); [by apply not_elem_of_nil in Hin|done].
Qed.

Lemma truthy_list_Some o (l : list string) :
truthy_list o = Some l → o = Some l ∧ l ≠ [].
Proof. destruct o as [[|x r]|]; [done| |done]. by intros [= <-]. Qed.

Lemma truthy_list_cons (x : string) r : truthy_list (Some (x :: r)) = Some (x :: r).
Proof. done. Qed.

Lemma check_dependents_ok args cols log deps :
check_dependents args cols = (log, inr deps) →
Forall (λ c, c ∈ cols) deps
∧ (∀ d r, dependents args = Some (d :: r) → deps = d :: r).
Proof.
unfold check_dependents. destruct (truthy_list (dependents args)) as [l|] eqn:Ht.
- apply truthy_list_Some in Ht as [Hd _].
  destruct (first_missing l cols) eqn:Hm; [done|]. intros [= <- <-].
  split; [by apply first_missing_None|]. intros d r. rewrite Hd. by intros [= ->].
- destruct (truthy_str _); [|done]. unfold clift.
  destruct (_match_columns_to_indices _ _) as [|out] eqn:Hr; [done|].
  intros [= <- <-]. split.
  + apply Forall_forall. intros c. by apply (match_columns_elem s).
  + intros d r Hd. by rewrite Hd in Ht.
Qed.

Lemma check_covariates_ok args cols log covs :
check_covariates args cols = (log, inr covs) →
Forall (λ c, c ∈ cols) covs
∧ (∀ d r, covariates args = Some (d :: r) → covs = d :: r).
Proof.
unfold check_covariates. destruct (truthy_list (covariates args)) as [l|] eqn:Ht.
- apply truthy_list_Some in Ht as [Hd _].
  destruct (first_missing l cols) eqn:Hm; [done|]. intros [= <- <-].
  split; [by apply first_missing_None|]. intros d r. rewrite Hd. by intros [= ->].
- destruct (truthy_str _).
  + unfold clift. destruct (_match_columns_to_indices _ _) as [|out] eqn:Hr; [done|].
    intros [= <- <-]. split.
    * apply Forall_forall. intros c. by apply (match_columns_elem s).
    * intros d r Hd. by rewrite Hd in Ht.
  + intros [= <- <-]. split; [done|]. intros d r Hd. by rewrite Hd in Ht.
Qed.

Lemma check_categorical_ok args covs log cats :
check_categorical args covs = (log, inr cats) → Forall (λ c, c ∈ covs) cats.
Proof.
unfold check_categorical. destruct (truthy_list _) as [l|]; [|by intros [= <- <-]].
destruct covs as [|c covs]; [done|].
destruct (first_missing l (c :: covs)) eqn:Hm; [done|]. intros [= <- <-].
by apply first_missing_None.
Qed.

Lemma check_threads_eq host args :
∃ log,
  check_threads host args
  = (log, inr (Z.min (polars_threads args) (cpu_count host),
               Z.min (threads args) (Z.min (polars_threads args) (cpu_count host)))).
Proof.
unfold check_threads.
destruct (Z.gtb_spec (polars_threads args) (cpu_count host)); simpl;
  [rewrite (Z.min_r (polars_threads args)) by lia
  |rewrite (Z.min_l (polars_threads args)) by lia];
  match goal with |- context [?a >=? ?b] => destruct (Z.geb_spec a b) end; simpl;
  eexists; f_equal; f_equal; f_equal; lia.
Qed.

(** What a successful run has gone through, step by step. *)
Lemma validate_args_inr host args log args' :
_validate_args host args = (log, inr args') →
∃ header deps covs cats l1 l2 l3,
  input_exists host = true ∧ output_parent_exists host = true
  ∧ _load_input_header (input_content host) (separator args) = ret header
  ∧ Forall (λ p, p ∈ header) (predictors args)
  ∧ check_dependents args header = (l1, inr deps)
  ∧ check_covariates args header = (l2, inr covs)
  ∧ check_categorical args covs = (l3, inr cats)
  ∧ args' = mkNamespace (input args) (output_parent args) (separator args)
              (predictors args) (Some deps) (dependents_indices args)
              (Some covs) (covariates_indicies args) (Some cats)
              (Z.min (polars_threads args) (cpu_count host))
              (Z.min (threads args) (Z.min (polars_threads args) (cpu_count host))).
Proof.
unfold _validate_args.
destruct (input_exists host); [|done]. destruct (output_parent_exists host); [|done].
cbn [negb]. intros (l0 & header & l0' & Hh & H & ->)%cbind_inr.
unfold clift in Hh. destruct (_load_input_header _ _) as [|header'] eqn:Hload; [done|].
injection Hh as <- <-.
apply cbind_inr in H as (? & [] & ? & _ & H & ->).
destruct (existsb _ _) eqn:Hpred; [done|].
apply cbind_inr in H as (l1 & deps & ? & Hd & H & ->).
apply cbind_inr in H as (l2 & covs & ? & Hc & H & ->).
apply cbind_inr in H as (l3 & cats & ? & Hcat & H & ->).
apply cbind_inr in H as (l4 & [pt th] & ? & Ht & H & ->).
destruct (check_threads_eq host args) as [l4' Heq]. rewrite Heq in Ht.
injection Ht as <- <- <-. injection H as <- <-.
exists header', deps, covs, cats, l1, l2, l3. split_and!; try done.
apply Forall_forall. intros p Hp%list_elem_of_In.
destruct (decide (p ∈ header')) as [|Hn]; [done|].
assert (existsb (λ predictor, bool_decide (predictor ∉ header')) (predictors args) = true)
  as Hex; [|congruence].
apply existsb_exists. exists p. split; [done|]. by apply bool_decide_eq_true_2.
Qed.

(** When validation succeeds, every predictor, dependent and covariate
    it leaves in the namespace is a column of the header, whether it
    came by name or by index; the categorical covariates are among the
    covariates; and a non-empty list of names is kept as given, the index
    expression beside it being ignored. *)
Theorem validate_args_columns host args log args' :
_validate_args host args = (log, inr args') →
∃ header deps covs cats,
  _load_input_header (input_content host) (separator args) = ret header
  ∧ Forall (λ p, p ∈ header) (predictors args')
  ∧ dependents args' = Some deps ∧ Forall (λ d, d ∈ header) deps
  ∧ covariates args' = Some covs ∧ Forall (λ c, c ∈ header) covs
  ∧ categorical_covariates args' = Some cats ∧ Forall (λ c, c ∈ covs) cats
  ∧ (∀ d r, dependents args = Some (d :: r) → deps = d :: r)
  ∧ (∀ c r, covariates args = Some (c :: r) → covs = c :: r).
Proof.
intros (header & deps & covs & cats & l1 & l2 & l3 & _ & _ & Hh & Hp & Hd & Hc & Hcat & ->)
  %validate_args_inr.
apply check_dependents_ok in Hd as [Hd1 Hd2].
apply check_covariates_ok in Hc as [Hc1 Hc2].
apply check_categorical_ok in Hcat.
exists header, deps, covs, cats. by split_and!.
Qed.

(** When validation succeeds, the Polars thread count has been capped at
    the number of CPUs and the computation thread count at the Polars
    one, so that threads <= polars_threads <= cpu_count afterwards. *)
Theorem validate_args_threads host args log args' :
_validate_args host args = (log, inr args') →
polars_threads args' = Z.min (polars_threads args) (cpu_count host)
∧ threads args' = Z.min (threads args) (polars_threads args')
∧ threads args' ≤ polars_threads args' ≤ cpu_count host.
Proof.
intros (header & deps & covs & cats & l1 & l2 & l3 & _ & _ & _ & _ & _ & _ & _ & ->)
  %validate_args_inr.
simpl. lia.
Qed.

Lemma check_dependents_error args cols log e :
check_dependents args cols = (log, inl e) →
∃ e', e = Invalid e' ∧ exc_cls e' = ValueError.
Proof.
unfold check_dependents, clift, cfail, cret.
repeat case_match; intros [= <- <-]; eauto using match_columns_value_error.
Qed.

Lemma check_covariates_error args cols log e :
check_covariates args cols = (log, inl e) →
∃ e', e = Invalid e' ∧ exc_cls e' = ValueError.
Proof.
unfold check_covariates, clift, cfail, cret.
repeat case_match; intros [= <- <-]; eauto using match_columns_value_error.
Qed.

Lemma check_categorical_error args covs log e :
check_categorical args covs = (log, inl e) →
∃ e', e = Invalid e' ∧ exc_cls e' = ValueError.
Proof.
unfold check_categorical, cfail, cret. repeat case_match; intros [= <- <-]; eauto.
Qed.

(** Validation fails in two ways only: with [FileNotFoundError], exactly
    when the input file or the output directory is missing, and with
    [ValueError] otherwise. *)
Theorem validate_args_failures host args log e :
_validate_args host args = (log, inl e) →
(∃ msg, e = FileNotFoundError msg
        ∧ (input_exists host = false ∨ output_parent_exists host = false))
∨ (∃ e', e = Invalid e' ∧ exc_cls e' = ValueError
         ∧ input_exists host = true ∧ output_parent_exists host = true).
Proof.
unfold _validate_args.
destruct (input_exists host); [|intros [= <- <-]; left; eauto].
destruct (output_parent_exists host); [|intros [= <- <-]; left; eauto].
cbn [negb]. intros H. right.
enough (∃ e', e = Invalid e' ∧ exc_cls e' = ValueError) as (e' & ? & ?) by eauto.
apply cbind_inl in H as [H|(? & header & ? & _ & H & ->)].
{ unfold clift, _load_input_header, split_str in H.
  destruct (String.eqb _ _); [|done]. injection H as <- <-. eauto. }
apply cbind_inl in H as [H|(? & [] & ? & _ & H & ->)]; [done|].
destruct (existsb _ _); [injection H as <- <-; eauto|].
apply cbind_inl in H as [H|(? & deps & ? & _ & H & ->)];
  [by eapply check_dependents_error|].
apply cbind_inl in H as [H|(? & covs & ? & _ & H & ->)];
  [by eapply check_covariates_error|].
apply cbind_inl in H as [H|(? & cats & ? & _ & H & ->)];
  [by eapply check_categorical_error|].
destruct (check_threads_eq host args) as [l Heq].
apply cbind_inl in H as [H|(? & [pt th] & ? & _ & H & ->)]; [congruence|done].
Qed.

(** Which sinks a record reaches after [setup_logger]: the log file from
    INFO up, whatever [verbose] is; standard output never for WARNING
    and ERROR, and without [verbose] for CRITICAL alone; standard error
    for ERROR and CRITICAL, and for WARNING with [verbose] only. Without
    [verbose], then, INFO and WARNING records go to the file and to no
    console stream. *)
Theorem setup_logger_routing (output : Path) (verbose : bool) (l : Level) :
reached (setup_logger output verbose) l
= ((if level_no INFO <=? level_no l
    then [LogFile (directory output ++ "/" ++ stem output ++ ".log")] else [])
   ++ (if level_eqb l CRITICAL
          || verbose && existsb (level_eqb l) [DEBUG; INFO; SUCCESS]
       then [Stdout] else [])
   ++ (if existsb (level_eqb l) [ERROR; CRITICAL] || verbose && level_eqb l WARNING
       then [Stderr] else []))%list.
Proof. by destruct verbose, l. Qed.

End Validation.

(** ** The PheWAS frame helpers, continued *)

Section SexSpecificCodesMore.
Import PolarsAurora.
Variables male_specific_codes female_specific_codes : list string.

Local Abbreviation handle :=
(handle_sex_specific_codes male_specific_codes female_specific_codes).

(** [drop=True] cannot be applied twice: whenever it returns a frame,
    that frame holds no sex-specific column any more, and the same call
    on it raises a [TypeError]. *)
Theorem handle_sex_specific_codes_drop_twice (df df' : Frame) :
handle df true = ret df' →
(∀ col, col ∈ names df' →
        (col ∉ male_specific_codes) ∧ (col ∉ female_specific_codes))
∧ handle df' true
  = raise TypeError "Expr.exclude() missing 1 required positional argument: 'columns'".
Proof.
unfold handle_sex_specific_codes at 1. cbv zeta.
pose proof (filter_excluded male_specific_codes female_specific_codes df) as Hfilter.
destruct (filter _ (names df) ++ filter _ (names df))%list as [|a args]; [done|].
unfold select. simpl. rewrite app_nil_r, Hfilter.
destruct (decide _) as [_|_]; [|done]. intros [= <-].
assert (∀ col,
          col ∈ names (mkFrame (lazy df)
                         (filter (λ c, (c.1 ∉ male_specific_codes)
                                       ∧ (c.1 ∉ female_specific_codes)) (columns df))) →
          (col ∉ male_specific_codes) ∧ (col ∉ female_specific_codes)) as Hnone.
{ intros col ([n s] & -> & Hin)%list_elem_of_fmap.
  by apply list_elem_of_filter in Hin as [Hin _]. }
split; [done|]. unfold handle_sex_specific_codes.
rewrite !filter_elem_nil; [done|intros col Hc; by apply Hnone..].
Qed.

End SexSpecificCodesMore.

Section MissingValuesMore.
Import PolarsAurora.

Lemma filter_mask_all_true {A} (n : nat) (l : list A) :
(length l ≤ n)%nat → filter_mask (replicate n true) l = l.
Proof.
revert n. induction l as [|x l IH]; intros [|n] Hn; simpl in *; try done; try lia.
rewrite IH by lia. done.
Qed.




(** [drop_nulls] leaves alone a frame whose rows are all complete. *)
Lemma drop_nulls_complete (df : Frame) (subset : list string) :
wf df → Forall (λ p, p ∈ names df) subset →
Forall (λ r, complete_on subset r = true) (rows df) →
drop_nulls subset df = ret df.
Proof.
intros Hwf Hps Hrows. unfold drop_nulls. rewrite expand_all_cols by done. simpl.
rewrite <- list_fmap_compose. change (snd ∘ _) with (λ p, column df p).
pose proof (wf_lengths df Hwf) as Hlen.
rewrite (keep_mask_rows df) by done. fold (rows df).
assert (complete_on subset <$> rows df = replicate (Z.to_nat (height df)) true) as ->.
{ rewrite <- (length_rows_of (columns df) (Z.to_nat (height df))) by done.
  fold (rows df). induction Hrows as [|r R Hr _ IH]; csimpl; [done|].
  by rewrite Hr, IH. }
destruct df as [lz cols]. simpl in *. do 2 f_equal.
clear Hrows Hwf Hps. revert Hlen. generalize (Z.to_nat (height (mkFrame lz cols))). intros h Hlen.
induction Hlen as [|[n s] cs Hs _ IH]; csimpl; [done|].
rewrite IH. unfold prod_map. simpl in *. by rewrite filter_mask_all_true by lia.
Qed.

Lemma handle_missing_of_drop (df : Frame) (predictors : list string) :
drop_nulls predictors df = ret df → handle_missing df predictors None = ([], ret df).
Proof.
intros Hd. unfold handle_missing. destruct (decide _) as [_|Hv]; [|destruct Hv; left].
unfold ret in Hd. rewrite Hd. unfold collect, height. simpl.
rewrite Z.eqb_refl. simpl. by destruct (lazy df).
Qed.

Lemma rows_complete_of_columns (df : Frame) (subset : list string) :
wf df → Forall (λ p, p ∈ names df) subset →
Forall (λ p, None ∉ column df p) subset →
Forall (λ r, complete_on subset r = true) (rows df).
Proof.
intros Hwf Hps Hnn. apply Forall_forall. intros r Hr.
unfold complete_on. apply forallb_forall. intros p Hp%list_elem_of_In.
rewrite Forall_forall in Hps, Hnn.
destruct (get_column_elem p (columns df) (Hps p Hp)) as (s & Hs & _).
pose proof (row_get_rows_of (columns df) _ p s (wf_lengths df Hwf) Hs) as Hget.
fold (rows df) in Hget.
apply list_elem_of_lookup in Hr as [i Hi].
apply (f_equal (λ l, l !! i)) in Hget. rewrite !list_lookup_fmap, Hi in Hget.
simpl in Hget. destruct (s !! i) as [c|] eqn:Hc; [|done].
injection Hget as ->. destruct c; [done|].
destruct (Hnn p Hp). unfold column. rewrite Hs. simpl.
by eapply list_elem_of_lookup_2.
Qed.

(** With [method=None], a frame whose listed columns hold no null comes
    back as it is, and nothing is printed. *)
Theorem handle_missing_drop_nothing_missing (df : Frame) (predictors : list string) :
wf df → Forall (λ p, p ∈ names df) predictors →
Forall (λ p, None ∉ column df p) predictors →
handle_missing df predictors None = ([], ret df).
Proof.
intros Hwf Hps Hnn. apply handle_missing_of_drop, drop_nulls_complete; [done..|].
by apply rows_complete_of_columns.
Qed.

(** Dropping is idempotent: on the frame it returned, the same call
    returns that frame again and prints nothing. *)
Theorem handle_missing_drop_idempotent (df new_df : Frame) (predictors : list string)
  (out : list string) :
wf df → Forall (λ p, p ∈ names df) predictors →
handle_missing df predictors None = (out, ret new_df) →
handle_missing new_df predictors None = ([], ret new_df).
Proof.
intros Hwf Hps Hrun.
destruct (drop_nulls_rows df predictors Hwf Hps)
  as (new_df' & Hdrop & Hwf' & _ & Hnames & Hrows).
assert (new_df = new_df') as ->.
{ unfold handle_missing in Hrun. destruct (decide _) as [_|Hv]; [|destruct Hv; left].
  unfold ret in Hdrop. rewrite Hdrop in Hrun. unfold ret in Hrun.
  repeat case_match; by injection Hrun as _ ->. }
apply handle_missing_of_drop, drop_nulls_complete; [done|by rewrite Hnames|].
rewrite Hrows. apply Forall_forall. by intros r [? _]%list_elem_of_filter.
Qed.

End MissingValuesMore.

(** ** The minimum-count filter, continued *)

Section FilterByCountMore.
Import PolarsAurora.


(** A phenotype listed twice makes [filter_by_count] raise
    [DuplicateError]; nothing is printed. *)
Theorem filter_by_count_duplicate_phenotype (df : Frame) (phenotypes : list string)
  (min_cases : Z) :
Forall (λ p, p ∈ names df) phenotypes → ¬ NoDup phenotypes →
filter_by_count df phenotypes min_cases
= ([], raise DuplicateError "the name is duplicate").
Proof.
intros Hps Hdup. unfold filter_by_count, select.
rewrite expand_all_cols by done. simpl.
rewrite <- list_fmap_compose.
replace (fst ∘ _ <$> phenotypes) with phenotypes
  by (symmetry; rewrite <- (list_fmap_id phenotypes) at 2; by apply list_fmap_ext).
by destruct (decide (NoDup phenotypes)).
Qed.

Lemma enough_monotone (m m' : Z) (s : series) :
m ≤ m' → enough m' s = true → enough m s = true.
Proof.
intros Hm. unfold enough. rewrite !andb_true_iff, !Z.geb_le. lia.
Qed.

(** Raising [min_cases] never brings a column back: on one frame and one
    list of phenotypes, the columns kept under the larger threshold are
    among those kept under the smaller one. *)
Theorem filter_by_count_monotone (df : Frame) (phenotypes : list string)
  (m m' : Z) (out out' : list string) (kept kept' : Frame) :
wf df → NoDup phenotypes → Forall (λ p, p ∈ names df) phenotypes →
m ≤ m' →
filter_by_count df phenotypes m = (out, ret kept) →
filter_by_count df phenotypes m' = (out', ret kept') →
∀ name, name ∈ names kept' → name ∈ names kept.
Proof.
intros Hwf Hnd Hps Hm.
rewrite !filter_by_count_eq by done. intros [= _ <-] [= _ <-] name.
rewrite !names_filtered_frame, !elem_of_app, !survivors_sorted_elem.
intros [?|[? ?]]; [by left|right]. split; [done|]. by eapply enough_monotone.
Qed.

(** The filter is idempotent: run again on the frame it returned, with
    the phenotypes that survived (at least one) and the same threshold, it
    returns that frame unchanged and prints nothing. *)
Theorem filter_by_count_idempotent (df : Frame) (phenotypes : list string)
  (min_cases : Z) (out : list string) (kept : Frame) :
wf df → NoDup phenotypes → Forall (λ p, p ∈ names df) phenotypes →
filter_by_count df phenotypes min_cases = (out, ret kept) →
filter (λ p, p ∈ names kept) phenotypes ≠ [] →
filter_by_count kept (filter (λ p, p ∈ names kept) phenotypes) min_cases
= ([], ret kept).
Proof.
intros Hwf Hnd Hps. rewrite filter_by_count_eq by done. intros [= _ <-].
set (kept := filtered_frame df phenotypes min_cases).
set (ph := filter (λ p, p ∈ names kept) phenotypes). intros Hph.
assert (ph = survivors df phenotypes min_cases) as Hsurv.
{ unfold ph, survivors. apply filter_iff_elem. intros p Hp.
  by apply phenotype_in_result. }
assert (wf kept) as Hwfk.
{ split; [by apply NoDup_names_filtered_frame|].
  assert (Forall (λ c : string * series, len c.2 = height df) (columns kept)) as Hrows.
  { apply Forall_forall. intros [name s] [Hn ->]%result_columns_from_input; [|done..].
    by apply column_length. }
  unfold height at 1. destruct (columns kept) as [|[n s] cs] eqn:Hcs.
  - constructor.
  - rewrite <- Hcs in *. eapply Forall_impl; [exact Hrows|]. intros c ->. simpl.
    rewrite Hcs in Hrows. by inversion Hrows. }
assert (∀ p, p ∈ ph → p ∈ names kept) as Hin.
{ intros p. unfold ph. rewrite list_elem_of_filter. tauto. }
assert (∀ p, p ∈ names kept → column kept p = column df p) as Hcol.
{ intros p (s & Hs & Hp)%get_column_elem. unfold column at 1. rewrite Hs. simpl.
  by apply result_columns_from_input in Hp as [_ ->]. }
rewrite filter_by_count_eq; [| done | by apply NoDup_filter
                            | apply Forall_forall, Hin ].
assert (∀ p, p ∈ ph → enough min_cases (column kept p) = true) as Henough.
{ intros p Hp. rewrite Hcol by by apply Hin. rewrite Hsurv in Hp.
  unfold survivors in Hp. by apply list_elem_of_filter in Hp as [-> _]. }
assert (survivors kept ph min_cases = ph) as Hs2 by by apply filter_all.
assert (excluded kept ph min_cases = []) as Hex.
{ apply filter_none. intros p Hp. by rewrite Henough. }
unfold dropped_message. rewrite Hex. simpl. do 2 f_equal.
unfold filtered_frame at 1. rewrite Hs2.
assert (∀ p, p ∈ merge_sort String.le ph ↔ p ∈ ph) as Hsorted
  by (intros p; by rewrite merge_sort_Permutation).
replace ((λ p, (p, column kept p)) <$> merge_sort String.le ph)
  with ((λ p, (p, column df p)) <$> merge_sort String.le ph); last first.
{ apply Forall_fmap_ext, Forall_forall. intros p Hp%Hsorted.
  by rewrite Hcol by by apply Hin. }
assert (filter (λ c : string * series, c.1 ∉ ph) (columns kept)
        = filter (λ c, c.1 ∉ phenotypes) (columns df)) as ->.
{ unfold kept at 1, filtered_frame. cbn [columns]. rewrite <- Hsurv, filter_app.
  rewrite <- (app_nil_r (filter _ (columns df))) at 2. f_equal.
  - apply filter_all. intros [n s] [Hn _]%list_elem_of_filter. simpl in *.
    unfold ph. rewrite list_elem_of_filter. tauto.
  - apply filter_none. intros [n s] Hns Hn. simpl in Hn. apply Hn, Hsorted.
    apply list_elem_of_fmap in Hns as (p & [= -> _] & Hp). done. }
unfold kept, filtered_frame. cbn [lazy]. by rewrite <- Hsurv.
Qed.

End FilterByCountMore.

(** ** The per-group regression wrapper, continued *)

Section FirthRegressionMore.
Import ModelFuncs.

Lemma np_sum_binary (y : list cell) :
Forall (λ c, c = Some 0 ∨ c = Some 1) y → len y < 2 ^ 63 →
np_sum y = Some (len (filter (λ c, c = Some 1) y)).
Proof.
unfold len. induction 1 as [|c y Hc _ IH]; intros Hlen; [done|].
simpl in Hlen. cbn [np_sum foldr]. fold (np_sum y). rewrite IH by lia.
pose proof (length_filter (λ c : cell, c = Some 1) y) as Hle.
rewrite filter_cons.
destruct Hc as [-> | ->]; (destruct (decide _) as [Heq|Hne]; [|try done]);
  try discriminate Heq; simpl; rewrite wrap64_small by lia; f_equal; lia.
Qed.

Lemma count_zeros_ones (y : list cell) :
Forall (λ c, c = Some 0 ∨ c = Some 1) y →
len (filter (λ c, c = Some 0) y) + len (filter (λ c, c = Some 1) y) = len y.
Proof.
unfold len. induction 1 as [|c y Hc _ IH]; [done|].
rewrite !filter_cons. destruct Hc as [-> | ->];
  repeat (destruct (decide _) as [Heq|Hne]; try discriminate Heq; try done);
  simpl; lia.
Qed.

Lemma ravel_cells (pre s : list cell) :
mjoin ((λ i, [mjoin ((pre ++ s)%list !! i)]) <$> seq (length pre) (length s)) = s.
Proof.
revert pre. induction s as [|c s IH]; intros pre; [done|].
cbn [length seq fmap list_fmap mjoin list_join app].
rewrite lookup_app_r, Nat.sub_diag by lia. cbn [lookup list_lookup mjoin option_join].
f_equal. specialize (IH (pre ++ [c])%list). rewrite length_app, <- app_assoc in IH.
simpl in IH. by rewrite Nat.add_1_r in IH.
Qed.

(** The response vector is the column asked for. *)
Lemma response_vector (df yframe : Frame) (name : string) :
select [Col name] df = ret yframe → to_numpy_ravel yframe = column df name.
Proof.
unfold select, column. simpl. destruct (get_column name (columns df)) as [s|]; [|done].
simpl. intros [= <-].
unfold to_numpy_ravel, height. simpl. unfold len. rewrite Nat2Z.id.
pose proof (ravel_cells [] s) as H. simpl in H.
exact H.
Qed.

(** For a response column coded 0/1 without nulls (and shorter than
    [2^63]), the counts that the wrapper computes are the number of
    ones, the number of zeros and the number of rows of that column;
    cases and controls add up to the total. *)
Theorem binary_response_counts (regframe yframe : Frame) (dependent_values : string) :
select [Col dependent_values] regframe = ret yframe →
Forall (λ c, c = Some 0 ∨ c = Some 1) (column regframe dependent_values) →
len (column regframe dependent_values) < 2 ^ 63 →
let y := to_numpy_ravel yframe in
group_cases y = len (filter (λ c, c = Some 1) (column regframe dependent_values))
∧ group_controls y = len (filter (λ c, c = Some 0) (column regframe dependent_values))
∧ group_total y = len (column regframe dependent_values)
∧ group_cases y + group_controls y = group_total y.
Proof.
intros Hsel Hy Hlen y. unfold y.
rewrite (response_vector regframe yframe dependent_values) by done.
clear Hsel y. set (y := column regframe dependent_values) in *.
pose proof (count_zeros_ones y Hy) as Hsum.
assert (group_cases y = len (filter (λ c, c = Some 1) y)) as Hc.
{ unfold group_cases. by rewrite np_sum_binary. }
assert (0 ≤ len (filter (λ c : cell, c = Some 1) y)) by (unfold len; lia).
assert (0 ≤ len (filter (λ c : cell, c = Some 0) y)) by (unfold len; lia).
unfold group_controls, group_total. rewrite Hc.
rewrite wrap64_small by lia. lia.
Qed.

Variable float : Type.
Variable exp : float → float.
Variable fit : Frame → list cell → result (Fitted float).
Variable check_grouped_independents_for_constants :
Frame → list string → option string → result (list string).

Local Abbreviation regression :=
(polars_firth_regression float exp fit check_grouped_independents_for_constants).
Local Abbreviation design :=
(design_matrix check_grouped_independents_for_constants).

(** With an empty list of independents the wrapper returns no record:
    whatever the group, the helper and the fit, the call raises, at the
    latest on [independents[0]]. *)
Theorem regression_without_independents (struct_col : Struct)
  (dependent_values : string) (min_cases : Z) :
∃ e, regression struct_col [] dependent_values min_cases = ([], inl e).
Proof.
unfold polars_firth_regression, before_test, select.
destruct (unique_item "dependent" _) as [e|dep]; simpl; [eauto|].
destruct (unique_item "predictor" _) as [e|pred]; simpl; [eauto|].
destruct (check_grouped_independents_for_constants _ _ _) as [e|non_consts];
  simpl; [eauto|].
destruct (expand_all _ _) as [e|cs]; simpl; [eauto|].
destruct (decide _); simpl; eauto.
Qed.

(** When the fit returns, the record holds entry 0 of the solver's
    p-values, coefficients and standard errors, the ends of its first
    confidence interval, [exp] of the coefficient as odds ratio, the
    recomputed counts, and the sentinel ["nan"] as failure reason;
    nothing is logged. *)
Theorem fit_success_recorded (struct_col : Struct) (independents : list string)
  (dependent_values : string) (min_cases : Z) X first yframe fl :
design struct_col independents = ret (X, first) → first ∈ names X →
select [Col dependent_values] (fields struct_col) = ret yframe →
fit X (to_numpy_ravel yframe) = inr fl →
∃ d,
  regression struct_col independents dependent_values min_cases = ([], ret d)
  ∧ d !! "pval" = Some (PyFloat (pvals_0 float fl))
  ∧ d !! "beta" = Some (PyFloat (coef_0 float fl))
  ∧ d !! "se" = Some (PyFloat (bse_0 float fl))
  ∧ d !! "OR" = Some (PyFloat (exp (coef_0 float fl)))
  ∧ d !! "ci_low" = Some (PyFloat (ci_0_0 float fl))
  ∧ d !! "ci_high" = Some (PyFloat (ci_0_1 float fl))
  ∧ d !! "cases" = Some (PyInt (group_cases (to_numpy_ravel yframe)))
  ∧ d !! "controls" = Some (PyInt (group_controls (to_numpy_ravel yframe)))
  ∧ d !! "total_n" = Some (PyInt (group_total (to_numpy_ravel yframe)))
  ∧ d !! "failed_reason" = Some (PyStr "nan").
Proof.
intros (dep & pred & Hd)%design_before Hin Hy Hfit.
rewrite (fit_path float exp fit check_grouped_independents_for_constants
           struct_col independents dependent_values min_cases dep pred X first yframe)
  by done.
cbv zeta. rewrite Hfit. eexists. split; [done|]. split_and!; reflexivity.
Qed.

End FirthRegressionMore.

(** ** The further properties at concrete inputs *)

Section MoreWitnesses.
Import PolarsMas PolarsAurora ModelFuncs Cli Examples MoreExamples.

Ltac decided := apply (bool_decide_unpack _); vm_compute; exact I.
Ltac concrete_wf := split; [decided|repeat constructor].

Lemma match_columns_to_indices_within_header_witness :
Forall (λ c, c ∈ header) ["sex"; "p1"; "id"].
Proof.
apply (match_columns_to_indices_within_header "2-4,0" header). reflexivity.
Defined.

Lemma match_columns_to_indices_raises_value_error_witness :
exc_cls (Raise ValueError "Index 7 out of range for 5 columns in input file.")
= ValueError
∧ exc_cls (Raise ValueError "Index 7 out of range for 5 columns in input file.")
  ≠ IndexError.
Proof.
apply (match_columns_to_indices_raises_value_error "1,7" header). reflexivity.
Defined.

Lemma match_columns_to_indices_reversed_range_witness :
_match_columns_to_indices "3-1" header = ret [].
Proof.
apply (match_columns_to_indices_reversed_range header 3 1); [lia|].
unfold len. simpl. lia.
Defined.

Lemma load_input_header_round_trip_witness :
_load_input_header ("id,age,sex" ++ String newline "1,30,0") ","
= ret ["id"; "age"; "sex"].
Proof.
apply (load_input_header_round_trip "," ["id"; "age"; "sex"] "1,30,0");
  [done|by repeat constructor|reflexivity..].
Defined.

Lemma load_input_header_shape_witness :
(∃ h t, _load_input_header "a;b" ";" = ret (h :: t))
∧ _load_input_header "" ";" = ret [""].
Proof.
destruct (load_input_header_shape "a;b" ";") as [_ H]. by apply H.
Defined.

Lemma validate_args_ok :
_validate_args host_ok args_ok
= ([(INFO, "5 columns found in input file.");
    (WARNING,
     "Number of Polars threads (16) exceeds number of available CPUs (8). Setting Polars threads to 8.");
    (WARNING,
     "Number of computation threads (12) exceeds number of Polars threads (8). Setting threads to 8.")],
   inr (mkNamespace "in.csv" "out" "," ["age"] (Some ["p1"; "p2"]) (Some "3-")
          (Some ["sex"]) None (Some ["sex"]) 8 8)).
Proof. reflexivity. Defined.

Lemma validate_args_columns_witness :
∃ header deps covs cats,
  _load_input_header (input_content host_ok) "," = ret header
  ∧ Forall (λ p, p ∈ header) ["age"]
  ∧ Some ["p1"; "p2"] = Some deps ∧ Forall (λ d, d ∈ header) deps
  ∧ Some ["sex"] = Some covs ∧ Forall (λ c, c ∈ header) covs
  ∧ Some ["sex"] = Some cats ∧ Forall (λ c, c ∈ covs) cats
  ∧ (∀ d r, dependents args_ok = Some (d :: r) → deps = d :: r)
  ∧ (∀ c r, covariates args_ok = Some (c :: r) → covs = c :: r).
Proof. exact (validate_args_columns _ _ _ _ validate_args_ok). Defined.

Lemma validate_args_threads_witness :
8 = Z.min 16 8 ∧ 8 = Z.min 12 8 ∧ 8 ≤ 8 ≤ 8.
Proof. exact (validate_args_threads _ _ _ _ validate_args_ok). Defined.

Lemma validate_args_failures_witness :
(∃ msg, FileNotFoundError "File not found: in.csv" = FileNotFoundError msg
        ∧ (input_exists host_no_input = false
           ∨ output_parent_exists host_no_input = false))
∨ (∃ e', FileNotFoundError "File not found: in.csv" = Invalid e'
         ∧ exc_cls e' = ValueError
         ∧ input_exists host_no_input = true
         ∧ output_parent_exists host_no_input = true).
Proof.
apply (validate_args_failures host_no_input args_ok []). reflexivity.
Defined.

Lemma handle_sex_specific_codes_drop_some_present_witness :
handle_sex_specific_codes male_codes female_codes df_sex true = ret df_sex_dropped.
Proof.
apply (handle_sex_specific_codes_drop_some_present male_codes female_codes df_sex).
- decided.
- exists "185". split; [|left]; decided.
Defined.

Lemma handle_sex_specific_codes_drop_twice_witness :
(∀ col, col ∈ names df_sex_dropped → (col ∉ male_codes) ∧ (col ∉ female_codes))
∧ handle_sex_specific_codes male_codes female_codes df_sex_dropped true
  = raise TypeError "Expr.exclude() missing 1 required positional argument: 'columns'".
Proof.
apply (handle_sex_specific_codes_drop_twice male_codes female_codes df_sex).
reflexivity.
Defined.


Lemma handle_missing_drop_nothing_missing_witness :
handle_missing df_pheno ["age"; "pb"] None = ([], ret df_pheno).
Proof.
apply handle_missing_drop_nothing_missing; [concrete_wf|decided|decided].
Defined.

Lemma handle_missing_drop_idempotent_witness :
handle_missing df_missing_dropped ["age"; "bmi"] None = ([], ret df_missing_dropped).
Proof.
apply (handle_missing_drop_idempotent df_missing df_missing_dropped ["age"; "bmi"]
         ["Dropped 2 rows with missing values."]);
  [concrete_wf|decided|reflexivity].
Defined.


Lemma filter_by_count_duplicate_phenotype_witness :
filter_by_count df_pheno ["pa"; "pb"; "pa"] 2
= ([], raise DuplicateError "the name is duplicate").
Proof.
apply filter_by_count_duplicate_phenotype; [decided|].
intros Hnd. apply NoDup_cons in Hnd as [Hn _]. apply Hn. decided.
Defined.

Lemma filter_by_count_monotone_witness :
"age" ∈ names df_pheno_1 ∧ "pa" ∈ names df_pheno_1 ∧ "pb" ∈ names df_pheno_1.
Proof.
pose proof (filter_by_count_monotone df_pheno ["pb"; "pa"; "pc"] 1 2
              [] ["1 phenotypes dropped due to having less than 2 cases/controls."]
              df_pheno_1 df_pheno_2) as H.
split_and!; apply H;
  first [concrete_wf | done | lia | reflexivity | decided].
Defined.

Lemma filter_by_count_idempotent_witness :
filter_by_count df_pheno_2 ["pb"; "pa"] 2 = ([], ret df_pheno_2).
Proof.
pose proof (filter_by_count_idempotent df_pheno ["pb"; "pa"; "pc"] 2
              ["1 phenotypes dropped due to having less than 2 cases/controls."]
              df_pheno_2) as H.
apply H; [concrete_wf|decided|decided|reflexivity|done].
Defined.

Lemma binary_response_counts_witness :
group_cases (to_numpy_ravel y_rare) = 1
∧ group_controls (to_numpy_ravel y_rare) = 3
∧ group_total (to_numpy_ravel y_rare) = 4
∧ group_cases (to_numpy_ravel y_rare) + group_controls (to_numpy_ravel y_rare)
  = group_total (to_numpy_ravel y_rare).
Proof.
apply (binary_response_counts (fields group_rare) y_rare "y");
  [reflexivity|decided|by vm_compute].
Defined.

Lemma fit_success_recorded_witness :
∃ d,
  run_rare fit_returns = ([], ret d)
  ∧ d !! "pval" = Some (PyFloat 5)
  ∧ d !! "beta" = Some (PyFloat 2)
  ∧ d !! "se" = Some (PyFloat 1)
  ∧ d !! "OR" = Some (PyFloat 9)
  ∧ d !! "ci_low" = Some (PyFloat 0)
  ∧ d !! "ci_high" = Some (PyFloat 4)
  ∧ d !! "cases" = Some (PyInt 1)
  ∧ d !! "controls" = Some (PyInt 3)
  ∧ d !! "total_n" = Some (PyInt 4)
  ∧ d !! "failed_reason" = Some (PyStr "nan").
Proof.
apply (fit_success_recorded Z exp_stand_in fit_returns keep_non_constants
         group_rare ["x"; "age"] "y" 20 X_rare "x" y_rare (mkFitted Z 5 2 1 0 4));
  [reflexivity|decided|reflexivity|reflexivity].
Defined.

End MoreWitnesses.
